(** * BottleneckUnit: the JPEG bottleneck of the BottleNet notebook

    A shallow embedding of [BottleneckUnit.forward] and
    [BottleneckUnit.backward] from [bottlenet-architecture-torch.ipynb],
    together with the part of torch, torchvision and PIL that the two
    methods call, of the network [Net] that contains the bottleneck, and
    of the loop of [train].

    - Tensors are handles (storage id, shape) into a heap of float
      storages, so that views alias their base tensor and fresh tensors
      get fresh storages. The heap does not track every temporary of the
      library calls (byte tensors, image buffers).
    - In [forward] every tensor is contiguous; [forward_strided] is the
      same method on tensors with strides, for the properties that depend
      on the layout of the input.
    - Float values are rationals: every finite float is a rational. In
      [forward] the product [mul(255)] and the quotient [div(255)] are
      taken in the rationals; [forward32] is the same method with the two
      rounded as single precision rounds them, for the properties that
      depend on the rounding.
    - The JPEG encoder and decoder are not part of the notebook; they are
      parameters of the development ([jpeg_save], [jpeg_open]). *)

From stdpp Require Import base list.
From Stdlib Require Import ZArith QArith Qabs Qround Qminmax Lia.
From Stdlib.Strings Require Import Byte.

Open Scope nat_scope.

(* ------------------------------------------------------------------ *)
(** ** Scalars and 8-bit samples *)

(** C conversion of a float to a signed integer: the fraction is dropped
    (rounding toward zero). *)
Definition trunc (v : Q) : Z := Z.quot (Qnum v) (Zpos (Qden v)).

(** Narrowing an integer to [uint8] keeps its low eight bits. *)
Definition byte_of_Z (z : Z) : byte :=
  default x00 (Byte.of_N (Z.to_N (z mod 256))).

Definition byte_to_Z (b : byte) : Z := Z.of_N (Byte.to_N b).

(** [pic.mul(255).byte()], elementwise: the conversion torchvision's
    [ToPILImage] applies to a float tensor. The product is the exact one
    (single precision rounds it, by less than one part in sixteen
    million). The narrowing is that of torch's CPU kernels on x86: a float
    goes to [uint8] through a 64-bit integer, the fraction is dropped,
    then the low eight bits are kept. There is no saturation on the way:
    382.5 becomes 382 and then 126, and -127.5 becomes -127 and then 129.
    Inside 0..255 every platform agrees; outside, C leaves the result of
    the narrowing open. *)
Definition mul255 (v : Q) : Q := (v * (255 # 1))%Q.
Definition to_uint8 (v : Q) : byte := byte_of_Z (trunc v).
Definition mul255_byte (v : Q) : byte := to_uint8 (mul255 v).

(** [img.float().div(255)], elementwise: the conversion torchvision's
    [ToTensor] applies to an 8-bit image. The quotient is the exact one;
    single precision returns the float nearest to it. *)
Definition float_div255 (b : byte) : Q := byte_to_Z b # 255.

(** Saturation to the unit interval, the operation the text of the
    specification attributes to the encode step. *)
Definition clamp01 (v : Q) : Q :=
  if Qle_bool v 0 then 0%Q else if Qle_bool 1 v then 1%Q else v.

(* ------------------------------------------------------------------ *)
(** ** Single precision

    A torch float tensor holds binary32 numbers: 24 significant bits, the
    last of them worth at least [2^-149]. An operation returns the
    binary32 number nearest to the exact result, the one with an even
    last bit when two are equally near. Results beyond the largest
    binary32 number (infinities) are outside the model. *)

Definition pow2 (e : Z) : Q := Qpower 2 e.

(** The position of the leading bit of a positive rational: the [e] with
    [2^e <= v < 2^(e+1)]. *)
Definition floor_log2 (v : Q) : Z :=
  let e := (Z.log2 (Qnum v) - Z.log2 (Zpos (Qden v)))%Z in
  if Qle_bool (pow2 e) v then e else (e - 1)%Z.

(** The nearest whole number, the even one of the two when the value
    lies halfway. *)
Definition round_half_even (v : Q) : Z :=
  let f := Qfloor v in
  match (v - inject_Z f ?= 1 # 2)%Q with
  | Lt => f
  | Gt => (f + 1)%Z
  | Eq => if Z.even f then f else (f + 1)%Z
  end.

(** Rounding to binary32. *)
Definition round_f32 (v : Q) : Q :=
  if Qeq_bool v 0 then 0%Q
  else
    let e := Z.max (floor_log2 (Qabs v) - 23) (-149) in
    Qred (inject_Z (round_half_even (v / pow2 e)) * pow2 e).

(** [pic.mul(255)] and [img.float().div(255)], elementwise, as single
    precision computes them. A byte and 255 are binary32 numbers as they
    are. *)
Definition mul255_f32 (v : Q) : Q := round_f32 (v * (255 # 1)).
Definition div255_f32 (b : byte) : Q := round_f32 (byte_to_Z b # 255).

(* ------------------------------------------------------------------ *)
(** ** Tensors, images, streams *)

(** A contiguous tensor: the id of its storage and its shape. (Tensors
    with other strides, a transposed or sliced view, are
    [StridedTensor]s, further down.) *)
Record Tensor := mkTensor { storage : nat; shape : list nat }.

Definition numel (shp : list nat) : nat := foldr Nat.mul 1 shp.
Arguments numel : simpl never.

(** A PIL image of mode "L" (one 8-bit channel), rows first. *)
Record PILImage := mkImage { width : nat; height : nat; pixels : list byte }.

(** [io.BytesIO]: a growable byte buffer and a position. *)
Record BytesIO := mkBytesIO { buf : list byte; pos : nat }.

Definition BytesIO_new : BytesIO := {| buf := []; pos := 0 |}.

Definition stream_write (st : BytesIO) (bs : list byte) : BytesIO :=
  {| buf := take (pos st) (buf st ++ replicate (pos st - length (buf st)) x00)
              ++ bs ++ drop (pos st + length bs) (buf st);
     pos := pos st + length bs |}.

Definition stream_seek (st : BytesIO) (n : nat) : BytesIO :=
  {| buf := buf st; pos := n |}.

Definition stream_rest (st : BytesIO) : list byte := drop (pos st) (buf st).

(** The autograd context handed to both methods. Neither method reads or
    writes it. *)
Record Ctx := mkCtx { saved_tensors : list Tensor }.

(* ------------------------------------------------------------------ *)
(** ** Program state, exceptions, and the monad of the embedding *)

(** Calls into the codec, in the order they happen. *)
Inductive CodecCall :=
| JpegSave (img : PILImage) (quality : Z)
| JpegOpen (data : list byte).

Record State := mkState { heap : list (list Q); calls : list CodecCall }.

Inductive PyError :=
| UnpackError (expected got : nat)
    (* ValueError: not enough / too many values to unpack (expected 4, got n) *)
| ViewError (target : list nat) (size : nat)
    (* RuntimeError: shape '[...]' is invalid for input of size n *)
| StrideError (target : list nat)
    (* RuntimeError: view size is not compatible with input tensor's size
       and stride (at least one dimension spans across two contiguous
       subspaces). Use .reshape(...) instead. *)
| PicDimError (ndim : nat)
    (* ValueError: pic should be 2/3 dimensional. Got n dimensions. *)
| EncoderError
    (* the exception raised by image.save *)
| DecoderError
    (* the exception raised by Image.open or by the deferred load *)
| StorageError.
    (* a handle whose storage is not in the heap; no torch tensor is so *)

Inductive outcome (A : Type) :=
| Ok (a : A)
| Raise (e : PyError).
Arguments Ok {A} a.
Arguments Raise {A} e.

Definition M (A : Type) : Type := State -> outcome A * State.

Definition ret {A} (a : A) : M A := fun s => (Ok a, s).

Definition raise {A} (e : PyError) : M A := fun s => (Raise e, s).

Definition bind {A B} (m : M A) (k : A -> M B) : M B :=
  fun s => match m s with
           | (Ok a, s') => k a s'
           | (Raise e, s') => (Raise e, s')
           end.

Declare Scope py_scope.
Delimit Scope py_scope with py.
Notation "x <- m ;; k" := (bind m (fun x => k))
  (at level 100, m at next level, right associativity) : py_scope.

(** Allocation of a fresh storage: its id is the next free one. *)
Definition alloc (data : list Q) : M nat :=
  fun s => (Ok (length (heap s)),
            {| heap := heap s ++ [data]; calls := calls s |}).

Definition load (t : Tensor) : M (list Q) :=
  fun s => match heap s !! storage t with
           | Some d => (Ok d, s)
           | None => (Raise StorageError, s)
           end.

Definition log_call (c : CodecCall) : M unit :=
  fun s => (Ok tt, {| heap := heap s; calls := calls s ++ [c] |}).

(** The values a handle denotes in a state. *)
Definition tensor_values (s : State) (t : Tensor) : option (list Q) :=
  heap s !! storage t.

(* ------------------------------------------------------------------ *)
(** ** The library calls of [forward] *)

Open Scope py_scope.

(** [torch.zeros_like(x)] *)
Definition zeros_like (x : Tensor) : M Tensor :=
  id <- alloc (replicate (numel (shape x)) 0%Q) ;;
  ret {| storage := id; shape := shape x |}.

(** [batch_size, channels, w, h = x.shape] *)
Definition unpack4 (shp : list nat) : M (nat * nat * nat * nat) :=
  match shp with
  | [a; b; c; d] => ret (a, b, c, d)
  | _ => raise (UnpackError 4 (length shp))
  end.

(** [t.view(new_shape)] on a contiguous tensor: same storage, new shape;
    the element counts must agree. (On a tensor that is not contiguous
    torch also compares the strides, and may raise: [view_strided].) *)
Definition view (t : Tensor) (new_shape : list nat) : M Tensor :=
  if Nat.eqb (numel new_shape) (numel (shape t))
  then ret {| storage := storage t; shape := new_shape |}
  else raise (ViewError new_shape (numel (shape t))).

(** The image [ToPILImage] builds from the values of a 2-D float tensor
    with [rows] rows and [cols] columns. *)
Definition image_of_values (rows cols : nat) (d : list Q) : PILImage :=
  {| width := cols; height := rows; pixels := map to_uint8 d |}.

(** [transforms.ToPILImage()(pic)] on a float tensor. A 2-D tensor gets a
    channel axis in front ([unsqueeze(0)]), [pic.mul(255)] makes a new
    float tensor, [.byte()] narrows it, and the single channel becomes a
    mode "L" image of size (columns, rows). The float tensor is a storage
    of the heap; the byte tensor and the image buffer are values. The
    multi-channel case of the library is outside this model: [forward]
    passes a 2-D tensor. *)
Definition to_pil_image (pic : Tensor) : M PILImage :=
  match shape pic with
  | [rows; cols] =>
      d <- load pic ;;
      scaled <- alloc (map mul255 d) ;;
      d255 <- load {| storage := scaled; shape := [1; rows; cols] |} ;;
      ret (image_of_values rows cols d255)
  | _ => raise (PicDimError (length (shape pic)))
  end.

(** [ToTensor()(pic)] on a mode "L" image: the bytes of the image, viewed
    as (height, width, 1), permuted to (1, height, width), converted to
    float and divided by 255, in a new tensor. Of the tensors the library
    makes on the way only the one it returns is a storage of the heap. *)
Definition to_tensor (pic : PILImage) : M Tensor :=
  if Nat.eqb (length (pixels pic)) (height pic * width pic * 1)
  then
    id <- alloc (map float_div255 (pixels pic)) ;;
    ret {| storage := id; shape := [1; height pic; width pic] |}
  else raise (ViewError [height pic; width pic; 1] (length (pixels pic))).

(* ------------------------------------------------------------------ *)
(** ** Strided tensors

    A torch tensor is a window on a storage: the offset of its first
    element, its sizes, and for every dimension the distance in the
    storage between neighbours, its stride. A transposed or sliced tensor
    shares the storage of its base and differs in these numbers. [view]
    never copies: it succeeds when the new sizes can be laid over the old
    strides, and raises otherwise. *)

Record StridedTensor := mkStrided
  { st_storage : nat;
    st_offset : nat;
    st_shape : list nat;
    st_strides : list nat }.

(** The strides of a contiguous tensor of a given shape. *)
Fixpoint contiguous_strides (shp : list nat) : list nat :=
  match shp with
  | [] => []
  | _ :: rest =>
      foldr (fun n acc => Nat.max n 1 * acc) 1 rest :: contiguous_strides rest
  end.

(** The places in the storage of the elements of a tensor, in the
    row-major order of their indices. *)
Fixpoint element_offsets (shp strd : list nat) (start : nat) : list nat :=
  match shp, strd with
  | n :: shp', k :: strd' =>
      flat_map (fun i => element_offsets shp' strd' (start + i * k)) (seq 0 n)
  | _, _ => [start]
  end.

(** The values of a tensor, in the row-major order of their indices. *)
Definition strided_values (s : State) (t : StridedTensor) : option (list Q) :=
  d ← heap s !! st_storage t;
  mapM (fun o => d !! o)
       (element_offsets (st_shape t) (st_strides t) (st_offset t)).
Arguments strided_values : simpl never.

(** The strides [view] gives to the new sizes (torch's [computeStride]).
    The dimensions of the tensor are scanned from the innermost outwards
    and gathered into chunks that lie evenly in the storage; the
    dimensions of the view, innermost first, must fill each chunk
    exactly.

    [lay_view] gives strides to dimensions of the view while the chunk
    is not yet filled, or the dimension has size 1. *)
Fixpoint lay_view (view acc : list nat) (view_numel tensor_numel base : nat)
  : list nat * list nat * nat :=
  match view with
  | n :: view' =>
      if (view_numel <? tensor_numel) || (n =? 1)
      then lay_view view' (view_numel * base :: acc) (view_numel * n)
             tensor_numel base
      else (view, acc, view_numel)
  | [] => ([], acc, view_numel)
  end.

(** [lay_chunks] scans the (size, stride) pairs of the tensor, innermost
    first. A chunk ends at the outermost dimension, and where the next
    dimension outwards is not of size 1 and does not continue the chunk
    with its stride. *)
Fixpoint lay_chunks (dims : list (nat * nat)) (view acc : list nat)
    (base tensor_numel view_numel : nat) : option (list nat) :=
  match dims with
  | [] => match view with [] => Some acc | _ => None end
  | (size, _) :: outer =>
      let tensor_numel := tensor_numel * size in
      let chunk_ends :=
        match outer with
        | [] => true
        | (size_o, stride_o) :: _ =>
            negb (size_o =? 1) && negb (stride_o =? tensor_numel * base)
        end in
      if chunk_ends then
        let '(view', acc', view_numel') :=
          lay_view view acc view_numel tensor_numel base in
        if view_numel' =? tensor_numel then
          match outer with
          | [] => lay_chunks outer view' acc' base tensor_numel view_numel'
          | (_, stride_o) :: _ => lay_chunks outer view' acc' stride_o 1 1
          end
        else None
      else lay_chunks outer view acc base tensor_numel view_numel
  end.

Definition compute_stride (oldshape oldstride newshape : list nat)
  : option (list nat) :=
  match oldshape with
  | [] => Some (replicate (length newshape) 1)
  | _ =>
      if numel oldshape =? 0 then
        if decide (oldshape = newshape) then Some oldstride
        else Some (contiguous_strides newshape)
      else lay_chunks (reverse (zip oldshape oldstride)) (reverse newshape) []
             (default 0 (last oldstride)) 1 1
  end.
Arguments compute_stride : simpl never.

(** [torch.zeros_like(x)] *)
Definition zeros_like_strided (x : StridedTensor) : M Tensor :=
  id <- alloc (replicate (numel (st_shape x)) 0%Q) ;;
  ret {| storage := id; shape := st_shape x |}.

(** [t.view(new_shape)]: the element counts must agree, and the new sizes
    must fit the strides. *)
Definition view_strided (t : StridedTensor) (new_shape : list nat)
  : M StridedTensor :=
  if Nat.eqb (numel new_shape) (numel (st_shape t))
  then
    match compute_stride (st_shape t) (st_strides t) new_shape with
    | Some strd =>
        ret {| st_storage := st_storage t; st_offset := st_offset t;
               st_shape := new_shape; st_strides := strd |}
    | None => raise (StrideError new_shape)
    end
  else raise (ViewError new_shape (numel (st_shape t))).

Definition load_strided (t : StridedTensor) : M (list Q) :=
  fun s => match strided_values s t with
           | Some d => (Ok d, s)
           | None => (Raise StorageError, s)
           end.

(** [transforms.ToPILImage()(pic)] on a 2-D float tensor of any layout:
    the image holds the elements in the order of their indices. *)
Definition to_pil_image_strided (pic : StridedTensor) : M PILImage :=
  match st_shape pic with
  | [rows; cols] =>
      d <- load_strided pic ;;
      scaled <- alloc (map mul255 d) ;;
      d255 <- load {| storage := scaled; shape := [1; rows; cols] |} ;;
      ret (image_of_values rows cols d255)
  | _ => raise (PicDimError (length (st_shape pic)))
  end.

(** The two transforms with the arithmetic of single precision. *)
Definition to_pil_image32 (pic : Tensor) : M PILImage :=
  match shape pic with
  | [rows; cols] =>
      d <- load pic ;;
      scaled <- alloc (map mul255_f32 d) ;;
      d255 <- load {| storage := scaled; shape := [1; rows; cols] |} ;;
      ret (image_of_values rows cols d255)
  | _ => raise (PicDimError (length (shape pic)))
  end.

Definition to_tensor32 (pic : PILImage) : M Tensor :=
  if Nat.eqb (length (pixels pic)) (height pic * width pic * 1)
  then
    id <- alloc (map div255_f32 (pixels pic)) ;;
    ret {| storage := id; shape := [1; height pic; width pic] |}
  else raise (ViewError [height pic; width pic; 1] (length (pixels pic))).

(* ------------------------------------------------------------------ *)
(** ** The codec and the two methods *)

Section Bottleneck.

(** The JPEG encoder behind [image.save(stream, "JPEG", quality=q)]:
    the compressed bytes, or nothing when the encoder refuses the
    image. *)
Variable jpeg_save : PILImage -> Z -> option (list byte).

(** The JPEG decoder behind [Image.open(stream)] and the deferred load
    of the pixels: the image, or nothing when the bytes do not decode. *)
Variable jpeg_open : list byte -> option PILImage.

(** [image.save(stream, "JPEG", quality=q)] *)
Definition image_save (image : PILImage) (stream : BytesIO) (quality : Z)
  : M BytesIO :=
  _ <- log_call (JpegSave image quality) ;;
  match jpeg_save image quality with
  | Some bs => ret (stream_write stream bs)
  | None => raise EncoderError
  end.

(** [Image.open(stream)]: decodes what the stream holds from its
    current position on. *)
Definition image_open (stream : BytesIO) : M PILImage :=
  _ <- log_call (JpegOpen (stream_rest stream)) ;;
  match jpeg_open (stream_rest stream) with
  | Some img => ret img
  | None => raise DecoderError
  end.

(** [BottleneckUnit.forward(ctx, x)] *)
Definition forward (ctx : Ctx) (x : Tensor) : M Tensor :=
  result <- zeros_like x ;;
  dims <- unpack4 (shape x) ;;
  let '(batch_size, channels, w, h) := dims in
  let outputIoStream := BytesIO_new in
  x2d <- view x [batch_size * channels; w * h] ;;
  image <- to_pil_image x2d ;;
  outputIoStream <- image_save image outputIoStream 90 ;;
  let outputIoStream := stream_seek outputIoStream 0 in
  decompressed <- image_open outputIoStream ;;
  result <- to_tensor decompressed ;;
  result <- view result [batch_size; channels; w; h] ;;
  ret result.

(** [BottleneckUnit.forward(ctx, x)], in single precision: the same
    statements, the two transforms rounding as binary32 does. *)
Definition forward32 (ctx : Ctx) (x : Tensor) : M Tensor :=
  result <- zeros_like x ;;
  dims <- unpack4 (shape x) ;;
  let '(batch_size, channels, w, h) := dims in
  let outputIoStream := BytesIO_new in
  x2d <- view x [batch_size * channels; w * h] ;;
  image <- to_pil_image32 x2d ;;
  outputIoStream <- image_save image outputIoStream 90 ;;
  let outputIoStream := stream_seek outputIoStream 0 in
  decompressed <- image_open outputIoStream ;;
  result <- to_tensor32 decompressed ;;
  result <- view result [batch_size; channels; w; h] ;;
  ret result.

(** [BottleneckUnit.forward(ctx, x)] on a tensor of any layout. What
    [ToTensor] returns is contiguous, so the last [view] is that of a
    contiguous tensor. *)
Definition forward_strided (ctx : Ctx) (x : StridedTensor) : M Tensor :=
  result <- zeros_like_strided x ;;
  dims <- unpack4 (st_shape x) ;;
  let '(batch_size, channels, w, h) := dims in
  let outputIoStream := BytesIO_new in
  x2d <- view_strided x [batch_size * channels; w * h] ;;
  image <- to_pil_image_strided x2d ;;
  outputIoStream <- image_save image outputIoStream 90 ;;
  let outputIoStream := stream_seek outputIoStream 0 in
  decompressed <- image_open outputIoStream ;;
  result <- to_tensor decompressed ;;
  result <- view result [batch_size; channels; w; h] ;;
  ret result.


(** [BottleneckUnit.backward(ctx, grad_output)] *)
Definition backward (ctx : Ctx) (grad_output : Tensor) : M Tensor :=
  ret grad_output.

End Bottleneck.

Close Scope py_scope.

(* ------------------------------------------------------------------ *)
(** ** The forward pass as the specification words it

    Reshape to a 2-D arrangement of batch*channels rows and width*height
    columns, take it as a single-channel image, encode at quality 90,
    decode to floats in the unit interval, reshape back. This definition
    works on plain values (a shape and a list of elements), with no heap
    and no stream. *)

(** The rows of a row-major matrix with [cols] columns. *)
Fixpoint rows_of (rows cols : nat) (d : list Q) : list (list Q) :=
  match rows with
  | 0 => []
  | S n => take cols d :: rows_of n cols (drop cols d)
  end.

Definition single_channel_image (matrix : list (list Q)) (rows cols : nat)
  : PILImage :=
  {| width := cols; height := rows;
     pixels := concat (map (map mul255_byte) matrix) |}.

(** The decoded image as a 2-D float tensor: its shape and its values. *)
Definition decoded_floats (img : PILImage) : option (list nat * list Q) :=
  if Nat.eqb (length (pixels img)) (height img * width img)
  then Some ([height img; width img], map float_div255 (pixels img))
  else None.

Definition reshape (t : list nat * list Q) (new_shape : list nat)
  : option (list nat * list Q) :=
  if Nat.eqb (numel new_shape) (numel (fst t))
  then Some (new_shape, snd t)
  else None.

Section ForwardSpec.

Variable jpeg_save : PILImage -> Z -> option (list byte).
Variable jpeg_open : list byte -> option PILImage.

Definition forward_spec (shp : list nat) (d : list Q)
  : option (list nat * list Q) :=
  match shp with
  | [batch; channels; w; h] =>
      let matrix := rows_of (batch * channels) (w * h) d in
      let image := single_channel_image matrix (batch * channels) (w * h) in
      compressed ← jpeg_save image 90;
      decoded ← jpeg_open compressed;
      floats ← decoded_floats decoded;
      reshape floats [batch; channels; w; h]
  | _ => None
  end.

End ForwardSpec.

(** What a caller sees of a run: the shape and the values of the returned
    tensor, or nothing when the run raised. *)
Definition observe (o : outcome Tensor * State) : option (list nat * list Q) :=
  match o with
  | (Ok r, s') => v ← tensor_values s' r; Some (shape r, v)
  | (Raise _, _) => None
  end.

(* ------------------------------------------------------------------ *)
(** ** A small lossy codec

    An instance of the codec parameters on which the development is run:
    a header with the height and the width as 16-bit big-endian numbers,
    then one byte per sample, each sample replaced by the middle of its
    quantisation bucket. The bucket width grows as the quality drops; at
    quality 90 it is 4. Like JPEG, it refuses empty images and dimensions
    that do not fit 16 bits. *)

Module SampleCodec.

Definition be16 (n : nat) : list byte :=
  [byte_of_Z (Z.of_nat n / 256); byte_of_Z (Z.of_nat n)].

Definition of_be16 (hi lo : byte) : nat :=
  Z.to_nat (byte_to_Z hi * 256 + byte_to_Z lo).

Definition bucket (quality : Z) : Z := Z.max 1 ((100 - quality) / 2 - 1).

Definition quantise (quality : Z) (b : byte) : byte :=
  let w := bucket quality in
  byte_of_Z (Z.min 255 (byte_to_Z b / w * w + w / 2)).

Definition dim_ok (n : nat) : bool :=
  (0 <? Z.of_nat n)%Z && (Z.of_nat n <? 65536)%Z.

Definition save (img : PILImage) (quality : Z) : option (list byte) :=
  if dim_ok (width img) && dim_ok (height img)
     && Nat.eqb (length (pixels img)) (height img * width img)
  then Some (be16 (height img) ++ be16 (width img)
             ++ map (quantise quality) (pixels img))
  else None.

Definition open (data : list byte) : option PILImage :=
  match data with
  | h1 :: h0 :: w1 :: w0 :: px =>
      let h := of_be16 h1 h0 in
      let w := of_be16 w1 w0 in
      if Nat.eqb (length px) (h * w)
      then Some {| width := w; height := h; pixels := px |}
      else None
  | _ => None
  end.

End SampleCodec.

(** The image of a 1x1x28x28 tensor of halves: one row of 784 samples,
    each [trunc (0.5 * 255) = 127]. *)
Definition half_gray : PILImage :=
  {| width := 784; height := 1; pixels := replicate 784 "127"%byte |}.

(** A state holding one tensor, and the handle of that tensor. *)
Definition state_with (d : list Q) : State := {| heap := [d]; calls := [] |}.
Definition tensor0 (shp : list nat) : Tensor := {| storage := 0; shape := shp |}.
Definition ctx0 : Ctx := {| saved_tensors := [] |}.


(** The images handed to the encoder during a run, oldest first. *)
Definition encoded_images (cs : list CodecCall) : list PILImage :=
  flat_map (fun c => match c with JpegSave img _ => [img] | JpegOpen _ => [] end) cs.

(** ** Sample runs

    A 1x1x2x2 tensor with two values inside the unit interval and two
    outside, run through [forward] with the sample codec; the same values
    behind another handle, in a state with a history. *)

Definition sample_values : list Q := [1 # 2; 3 # 2; -1 # 2; 1 # 1].
Definition sample_input : Tensor := tensor0 [1; 1; 2; 2].
Definition sample_state : State := state_with sample_values.
Definition sample_run : outcome Tensor * State :=
  forward SampleCodec.save SampleCodec.open ctx0 sample_input sample_state.
Definition sample_output : Tensor := {| storage := 3; shape := [1; 1; 2; 2] |}.

Definition other_ctx : Ctx := {| saved_tensors := [sample_input] |}.
Definition other_input : Tensor := {| storage := 1; shape := [1; 1; 2; 2] |}.
Definition other_state : State :=
  {| heap := [[7 # 1]; sample_values]; calls := [JpegOpen []] |}.


(** The all-0.5 single-channel 28x28 tensor. *)
Definition half_values : list Q := replicate 784 (1 # 2).
Definition half_input : Tensor := tensor0 [1; 1; 28; 28].
Definition half_run : outcome Tensor * State :=
  forward SampleCodec.save SampleCodec.open ctx0 half_input (state_with half_values).

(** What a caller sees of a run, exceptions included. *)
Definition result_of (o : outcome Tensor * State)
  : outcome (list nat * option (list Q)) :=
  match o with
  | (Ok r, s') => Ok (shape r, tensor_values s' r)
  | (Raise e, _) => Raise e
  end.

Definition unit_interval (v : Q) : Prop := (0 <= v <= 1)%Q.

(** [v] is a whole number of 255ths. *)
Definition multiple_of_255th (v : Q) : Prop := exists k : Z, (v == k # 255)%Q.

Definition multiple_of_255thb (v : Q) : bool :=
  ((Qnum v * 255) mod Z.pos (Qden v) =? 0)%Z.

(** What the properties of a single-precision quotient come to, for
    checking them sample by sample: it lies in the unit interval, within
    [2^-25] of the exact quotient, and is a whole number of 255ths for
    the samples 0 and 255 only. *)
Definition div255_f32_check (p : byte) : bool :=
  let k := byte_to_Z p in
  let v := div255_f32 p in
  Qle_bool 0 v && Qle_bool v 1
  && Qle_bool (Qabs (v - (k # 255))) (1 # 33554432)
  && Bool.eqb (multiple_of_255thb v) ((k =? 0)%Z || (k =? 255)%Z).

(** The sample values behind a contiguous 1x1x2x2 tensor, and behind the
    same tensor with its last two dimensions transposed. *)
Definition contiguous_input : StridedTensor :=
  {| st_storage := 0; st_offset := 0;
     st_shape := [1; 1; 2; 2]; st_strides := [4; 4; 2; 1] |}.
Definition transposed_input : StridedTensor :=
  {| st_storage := 0; st_offset := 0;
     st_shape := [1; 1; 2; 2]; st_strides := [4; 4; 1; 2] |}.

(** The sample run in single precision. *)
Definition sample_run32 : outcome Tensor * State :=
  forward32 SampleCodec.save SampleCodec.open ctx0 sample_input sample_state.

(** [v] lies within [tol] of [center]. *)
Definition within (tol center v : Q) : Prop := (Qabs (v - center) <= tol)%Q.

(* ------------------------------------------------------------------ *)
(** ** More codec instances and inputs *)


(** A decoder that loses the last sample of every image. *)
Definition cropping_open (data : list byte) : option PILImage :=
  match SampleCodec.open data with
  | Some img => Some {| width := width img; height := height img;
                        pixels := removelast (pixels img) |}
  | None => None
  end.

(** A decoder that refuses every stream. *)
Definition refusing_open (data : list byte) : option PILImage := None.

(** An empty batch of 1x2x2 tensors. *)
Definition empty_batch : Tensor := tensor0 [0; 1; 2; 2].



(* ------------------------------------------------------------------ *)
(** ** The network around the bottleneck

    [Net] and [Net.forward]. Every layer makes a new tensor from its
    input. The shapes, [relu], [max_pool2d], [Dropout2d] and [flatten] are
    written out. What a convolution, a linear layer and [log_softmax]
    compute depends on the weights and on [exp] and [log]; it is a
    parameter ([kernel]), as are the random masks of the dropout. *)

Record Conv2d := mkConv2d
  { in_channels : nat; out_channels : nat; kernel_size : nat; stride : nat }.

Record Linear := mkLinear { in_features : nat; out_features : nat }.

Record Net := mkNet
  { conv1 : Conv2d; conv2 : Conv2d; conv3 : Conv2d;
    dropout : Q;
    fc1 : Linear; fc2 : Linear;
    training : bool }.

(** [Net.__init__], and the flag [model.train()] and [model.eval()] set. *)
Definition Net_init (training : bool) : Net :=
  {| conv1 := mkConv2d 1 32 3 1;
     conv2 := mkConv2d 32 64 3 1;
     conv3 := mkConv2d 64 64 3 1;
     dropout := 1 # 10;
     fc1 := mkLinear 6400 128;
     fc2 := mkLinear 128 10;
     training := training |}.

(** The layers whose arithmetic is a parameter. *)
Inductive KernelOf :=
| ConvKernel (layer : Conv2d)
| LinearKernel (layer : Linear)
| LogSoftmaxKernel (dim : nat).

Inductive NetError :=
| ConvInputError (layer : Conv2d) (got : list nat)
    (* RuntimeError: expected 4-dimensional input, or a channel count or a
       kernel size that does not fit the input *)
| PoolInputError (got : list nat)
    (* RuntimeError: input of the wrong rank or smaller than the window *)
| FlattenInputError (got : list nat)
    (* IndexError: Dimension out of range *)
| LinearInputError (layer : Linear) (got : list nat)
    (* RuntimeError: size mismatch *)
| SoftmaxInputError (got : list nat)
    (* IndexError: Dimension out of range *)
| BottleneckRaised (e : PyError)
| NoStorage.

Inductive net_outcome (A : Type) :=
| NetOk (a : A)
| NetRaise (e : NetError).
Arguments NetOk {A} a.
Arguments NetRaise {A} e.

Definition NM (A : Type) : Type := State -> net_outcome A * State.

Definition nret {A} (a : A) : NM A := fun s => (NetOk a, s).

Definition nbind {A B} (m : NM A) (k : A -> NM B) : NM B :=
  fun s => match m s with
           | (NetOk a, s') => k a s'
           | (NetRaise e, s') => (NetRaise e, s')
           end.

Declare Scope net_scope.
Delimit Scope net_scope with net.
Notation "x <~ m ;; k" := (nbind m (fun x => k))
  (at level 100, m at next level, right associativity) : net_scope.

(** A layer as a function from the shape and the values of its input to
    those of its output. *)
Definition LayerFn : Type :=
  list nat -> list Q -> NetError + (list nat * list Q).

(** Running a layer: the values of the input are read, the output is a new
    tensor. *)
Definition tensor_op (f : LayerFn) (x : Tensor) : NM Tensor :=
  fun s => match heap s !! storage x with
           | None => (NetRaise NoStorage, s)
           | Some d =>
               match f (shape x) d with
               | inl e => (NetRaise e, s)
               | inr (shp, d') =>
                   (NetOk {| storage := length (heap s); shape := shp |},
                    {| heap := heap s ++ [d']; calls := calls s |})
               end
           end.

(** The output extent of a window of size [k] moved by [step] over
    [size] positions, without padding. *)
Definition out_size (size k step : nat) : nat := (size - k) / step + 1.

Definition conv2d_shape (l : Conv2d) (shp : list nat) : option (list nat) :=
  match shp with
  | [n; c; h; w] =>
      if Nat.eqb c (in_channels l)
         && Nat.leb (kernel_size l) h && Nat.leb (kernel_size l) w
      then Some [n; out_channels l;
                 out_size h (kernel_size l) (stride l);
                 out_size w (kernel_size l) (stride l)]
      else None
  | _ => None
  end.

(** [F.relu(x)] *)
Definition relu_fn : LayerFn :=
  fun shp d => inr (shp, map (Qmax 0) d).

(** The largest value of a non-empty list. *)
Definition max_of (l : list Q) : Q :=
  match l with
  | [] => 0%Q
  | v :: vs => foldl Qmax v vs
  end.

(** The largest values of the windows of one band of [k] rows: window
    [j] covers the columns [j*k] to [j*k + k - 1] of every row of the
    band. *)
Definition pool_band (k ow : nat) (rows : list (list Q)) : list Q :=
  map (fun j => max_of (flat_map (fun row => take k (drop (j * k) row)) rows))
      (seq 0 ow).

(** The planes of the tensor, one per sample and channel, are cut into
    bands of [k] rows; rows and columns that do not fill a window are
    left out. *)
Definition max_pool2d_values (k n c h w : nat) (d : list Q) : list Q :=
  flat_map (fun plane =>
    flat_map (fun band => pool_band k (out_size w k k) (rows_of k w band))
             (rows_of (out_size h k k) (k * w) plane))
    (rows_of (n * c) (h * w) d).
Arguments max_pool2d_values : simpl never.

(** [F.max_pool2d(x, k)]: windows of size [k], moved by [k], no padding,
    sizes rounded down. *)
Definition max_pool2d_fn (k : nat) : LayerFn :=
  fun shp d =>
    match shp with
    | [n; c; h; w] =>
        if Nat.leb k h && Nat.leb k w
        then inr ([n; c; out_size h k k; out_size w k k],
                  max_pool2d_values k n c h w d)
        else inl (PoolInputError shp)
    | _ => inl (PoolInputError shp)
    end.

(** [nn.Dropout2d(p)]: in training, every plane (sample, channel) is kept
    and scaled by [1/(1-p)], or zeroed, as the mask says; in evaluation
    the values pass as they are. *)
Definition dropout2d_values (p : Q) (training : bool) (mask : list bool)
    (shp : list nat) (d : list Q) : list Q :=
  if training
  then
    let plane := numel (drop 2 shp) in
    imap (fun i v => if nth (i / plane) mask false
                     then (v * (1 / (1 - p)))%Q else 0%Q) d
  else d.

Definition dropout2d_fn (p : Q) (training : bool) (mask : list bool) : LayerFn :=
  fun shp d => inr (shp, dropout2d_values p training mask shp d).

(** [torch.flatten(x, 1)] *)
Definition flatten1_fn : LayerFn :=
  fun shp d =>
    match shp with
    | n :: (_ :: _) as rest => inr ([n; numel rest], d)
    | _ => inl (FlattenInputError shp)
    end.

Section Network.

Variable jpeg_save : PILImage -> Z -> option (list byte).
Variable jpeg_open : list byte -> option PILImage.

(** The values a convolution, a linear layer or [log_softmax] computes
    from the shape and the values of its input. *)
Variable kernel : KernelOf -> list nat -> list Q -> list Q.

(** The mask the [i]-th dropout of a forward pass draws. *)
Variable masks : nat -> list bool.

(** [nn.Conv2d]: a batch of images with the layer's input channels, at
    least as large as the kernel. *)
Definition conv2d_fn (l : Conv2d) : LayerFn :=
  fun shp d =>
    match conv2d_shape l shp with
    | Some shp' => inr (shp', kernel (ConvKernel l) shp d)
    | None => inl (ConvInputError l shp)
    end.

(** [nn.Linear] on a matrix whose rows have the layer's input features. *)
Definition linear_fn (l : Linear) : LayerFn :=
  fun shp d =>
    match shp with
    | [n; f] =>
        if Nat.eqb f (in_features l)
        then inr ([n; out_features l], kernel (LinearKernel l) shp d)
        else inl (LinearInputError l shp)
    | _ => inl (LinearInputError l shp)
    end.

(** [F.log_softmax(x, dim=1)] *)
Definition log_softmax1_fn : LayerFn :=
  fun shp d =>
    match shp with
    | _ :: _ :: _ => inr (shp, kernel (LogSoftmaxKernel 1) shp d)
    | _ => inl (SoftmaxInputError shp)
    end.

(** [BottleneckUnit.apply(x)]: [forward] with a context of its own. *)
Definition BottleneckUnit_apply (x : Tensor) : NM Tensor :=
  fun s => match forward jpeg_save jpeg_open ctx0 x s with
           | (Ok r, s') => (NetOk r, s')
           | (Raise e, s') => (NetRaise (BottleneckRaised e), s')
           end.

Open Scope net_scope.

(** [Net.forward(self, x)] *)
Definition Net_forward (self : Net) (x : Tensor) : NM Tensor :=
  x <~ tensor_op (conv2d_fn (conv1 self)) x ;;
  x <~ tensor_op relu_fn x ;;
  x <~ tensor_op (conv2d_fn (conv2 self)) x ;;
  x <~ tensor_op relu_fn x ;;
  x <~ tensor_op (max_pool2d_fn 2) x ;;
  x <~ tensor_op (dropout2d_fn (dropout self) (training self) (masks 0)) x ;;
  x <~ BottleneckUnit_apply x ;;
  x <~ tensor_op (conv2d_fn (conv3 self)) x ;;
  x <~ tensor_op relu_fn x ;;
  x <~ tensor_op (dropout2d_fn (dropout self) (training self) (masks 1)) x ;;
  x <~ tensor_op flatten1_fn x ;;
  x <~ tensor_op (linear_fn (fc1 self)) x ;;
  x <~ tensor_op relu_fn x ;;
  x <~ tensor_op (dropout2d_fn (dropout self) (training self) (masks 2)) x ;;
  x <~ tensor_op (linear_fn (fc2 self)) x ;;
  output <~ tensor_op log_softmax1_fn x ;;
  nret output.

Close Scope net_scope.

End Network.

(** Kernels and masks for sample runs: every output value a half, every
    second plane dropped. *)
Definition half_kernel (k : KernelOf) (shp : list nat) (d : list Q) : list Q :=
  match k with
  | ConvKernel l =>
      match conv2d_shape l shp with
      | Some shp' => replicate (numel shp') (1 # 2)
      | None => []
      end
  | LinearKernel l => replicate (numel (removelast shp) * out_features l) (1 # 2)
  | LogSoftmaxKernel _ => d
  end.

Definition alternating_masks (i : nat) : list bool :=
  flat_map (fun _ => [true; false]) (seq 0 64).

(** One 1x28x28 image, all values a quarter. *)
Definition digit_input : Tensor := tensor0 [1; 1; 28; 28].
Definition digit_state : State := state_with (replicate 784 (1 # 4)).

(** A computation that leaves the record of codec calls as it is. *)
Definition keeps_calls {A} (m : NM A) : Prop :=
  forall s, calls (snd (m s)) = calls s.

Definition nonneg (v : Q) : Prop := (0 <= v)%Q.

(** The forward pass of the network in training mode on the sample image,
    and the tensor it returns. *)
Abbreviation digit_run :=
  (Net_forward SampleCodec.save SampleCodec.open half_kernel alternating_masks
     (Net_init true) digit_input digit_state).
Definition digit_output : Tensor := {| storage := 18; shape := [1; 10] |}.

(* ------------------------------------------------------------------ *)
(** ** The training loop

    [train]. What the five lines from [optimizer.zero_grad()] to
    [optimizer.step()] do to the weights, and the loss they compute, is a
    parameter ([fit]); the loop, its counter and the progress line are
    written out. A loader is the list of the batches it yields together
    with the length of its dataset, which the loop only prints. *)

(** [torch.utils.data.DataLoader], as [train] uses it: iteration,
    [len(train_loader)] (the number of batches) and
    [len(train_loader.dataset)]. *)
Record DataLoader (B : Type) := mkLoader
  { batches : list B;
    dataset_len : nat }.
Arguments mkLoader {B} batches dataset_len.
Arguments batches {B} d.
Arguments dataset_len {B} d.

(** The numbers of a progress line, before formatting. *)
Record ProgressLine := mkLine
  { line_epoch : nat;
    line_seen : nat;        (* batch_idx * len(data) *)
    line_total : nat;       (* len(train_loader.dataset) *)
    line_percent : Q;       (* 100. * batch_idx / len(train_loader) *)
    line_loss : Q }.

Section Train.

Context {W B : Type}.

(** [len(data)] *)
Variable len : B -> nat.

(** One step of training on a batch: the new weights and [loss.item()]. *)
Variable fit : W -> B -> W * Q.

(** The iterations of the loop from [batch_idx] on. *)
Fixpoint train_from (epoch : nat) (train_loader : DataLoader B)
    (batch_idx : nat) (remaining : list B) (w : W) : W * list ProgressLine :=
  match remaining with
  | [] => (w, [])
  | data :: rest =>
      let (w1, loss) := fit w data in
      let printed :=
        if Nat.eqb (batch_idx mod 30) 0
        then [mkLine epoch (batch_idx * len data) (dataset_len train_loader)
                (inject_Z (100 * Z.of_nat batch_idx)
                 / inject_Z (Z.of_nat (length (batches train_loader))))
                loss]
        else [] in
      let (w2, lines) := train_from epoch train_loader (S batch_idx) rest w1 in
      (w2, printed ++ lines)
  end.

(** [train(model, device, train_loader, optimizer, epoch)]: the weights
    after the epoch and the lines printed. *)
Definition train (w : W) (train_loader : DataLoader B) (epoch : nat)
  : W * list ProgressLine :=
  train_from epoch train_loader 0 (batches train_loader) w.

End Train.

(** What a loader with [batch_size = size] and no [drop_last] yields: full
    batches, and a shorter one at the end when the samples do not divide. *)
Definition full_then_short {B} (len : B -> nat) (size : nat) (yielded : list B)
  : Prop :=
  forall i data, yielded !! i = Some data ->
    len data <= size /\ (S i < length yielded -> len data = size).

(** The batches of a loader are drawn from its dataset, no sample twice. *)
Definition drawn_from_dataset {B} (len : B -> nat) (loader : DataLoader B)
  : Prop :=
  sum_list (map len (batches loader)) <= dataset_len loader.

(** The batch indices below [n] at which a line is printed. *)
Definition printing_indices (n : nat) : list nat :=
  filter (fun i => i mod 30 = 0) (seq 0 n).

(** The progress line of batch index [i]. *)
Definition progress_line_of {B} (len : B -> nat) (epoch : nat)
    (loader : DataLoader B) (i : nat) (l : ProgressLine) : Prop :=
  exists data,
    batches loader !! i = Some data
    /\ line_epoch l = epoch
    /\ line_seen l = i * len data
    /\ line_total l = dataset_len loader
    /\ line_percent l
       = (inject_Z (100 * Z.of_nat i)
          / inject_Z (Z.of_nat (length (batches loader))))%Q.

(** The number of samples in the batches before batch index [i]. *)
Definition seen_before {B} (len : B -> nat) (yielded : list B) (i : nat) : nat :=
  sum_list (map len (take i yielded)).

(** A loader of thirty batches of four samples and one of three over a
    dataset of 123 samples, a batch being given by its size; a training
    step that adds the size to a counter and reports it as the loss. *)
Definition short_tail_loader : DataLoader nat :=
  {| batches := replicate 30 4 ++ [3]; dataset_len := 123 |}.
Definition counting_fit (w : nat) (data : nat) : nat * Q :=
  (w + data, inject_Z (Z.of_nat data)).

(** The loader of the notebook: 60000 samples in batches of 128. *)
Definition mnist_loader : DataLoader nat :=
  {| batches := replicate 468 128 ++ [96]; dataset_len := 60000 |}.

(** A percentage as [{:.0f}] prints it: the nearest whole number, the
    even one of the two when the value lies halfway. *)
Definition rounded (v : Q) : Z := round_half_even v.

(* ================================================================== *)
(** * Properties *)

(** ** Samples *)

Lemma byte_to_Z_range (b : byte) : (0 <= byte_to_Z b <= 255)%Z.
Proof.
  unfold byte_to_Z. pose proof (Byte.to_N_bounded b). lia.
Qed.


Lemma float_div255_unit (b : byte) : unit_interval (float_div255 b).
Proof.
  unfold unit_interval, float_div255, Qle. simpl.
  pose proof (byte_to_Z_range b). lia.
Qed.

(** ** Shapes and streams *)

Lemma numel_2d (b c w h : nat) : numel [b * c; w * h] = numel [b; c; w; h].
Proof. unfold numel. simpl. lia. Qed.

Lemma stream_roundtrip (bs : list byte) :
  stream_rest (stream_seek (stream_write BytesIO_new bs) 0) = bs.
Proof.
  unfold stream_rest, stream_seek, stream_write, BytesIO_new. simpl.
  rewrite drop_nil. apply app_nil_r.
Qed.

(** The 256 values a decoded sample can take. *)
Lemma float_div255_levels (b : byte) :
  In (float_div255 b) (map (fun k => Z.of_nat k # 255) (seq 0 256)).
Proof.
  apply in_map_iff. exists (Z.to_nat (byte_to_Z b)).
  pose proof (byte_to_Z_range b) as Hb. split.
  - unfold float_div255. rewrite Z2Nat.id by lia. reflexivity.
  - apply in_seq. lia.
Qed.

Lemma distinct_levels_bound (px : list byte) (l : list Q) :
  NoDup l ->
  (forall v, v ∈ l -> v ∈ map float_div255 px) ->
  length l <= 256.
Proof.
  intros Hnd Hsub.
  set (levels := map (fun k => Z.of_nat k # 255) (seq 0 256)).
  assert (Hlen : length levels = 256).
  { unfold levels. rewrite length_map, length_seq. reflexivity. }
  rewrite <- Hlen. apply submseteq_length, NoDup_submseteq; [exact Hnd|].
  intros v Hv. apply Hsub, list_elem_of_In, in_map_iff in Hv.
  destruct Hv as (b & <- & _).
  apply list_elem_of_In, float_div255_levels.
Qed.

Lemma numel_cons1 (shp : list nat) : numel (1 :: shp) = numel shp.
Proof. unfold numel. simpl. lia. Qed.

(** Cutting a row-major list into rows and gluing the rows again. *)
Lemma concat_rows_of (rows cols : nat) (d : list Q) :
  length d = rows * cols -> concat (rows_of rows cols d) = d.
Proof.
  revert d. induction rows as [|n IH]; intros d Hlen; simpl in *.
  - destruct d; [reflexivity | discriminate].
  - rewrite IH.
    + apply take_drop.
    + rewrite length_drop. lia.
Qed.

Lemma image_of_matrix (rows cols : nat) (d : list Q) :
  length d = rows * cols ->
  single_channel_image (rows_of rows cols d) rows cols
  = image_of_values rows cols (map mul255 d).
Proof.
  intros Hlen. unfold single_channel_image, image_of_values. f_equal.
  rewrite <- concat_map, concat_rows_of by exact Hlen.
  rewrite map_map. reflexivity.
Qed.

Lemma byte_of_to_Z (b : byte) : byte_of_Z (byte_to_Z b) = b.
Proof.
  unfold byte_of_Z, byte_to_Z.
  pose proof (Byte.to_N_bounded b) as Hb.
  rewrite Z.mod_small by lia. rewrite N2Z.id, Byte.of_to_N. reflexivity.
Qed.

(** The two conversions of the notebook undo each other on samples: taken
    exactly, [div(255)] followed by [mul(255).byte()] gives the sample
    back. What a second pass changes, the codec changes. *)
Lemma sample_roundtrip (b : byte) : mul255_byte (float_div255 b) = b.
Proof.
  unfold mul255_byte, to_uint8, mul255, float_div255, trunc. simpl.
  change (Z.pos (255 * 1)) with 255%Z.
  rewrite Z.quot_mul by lia. apply byte_of_to_Z.
Qed.

(** A sample within 0.05 of the sample 127 is within 0.05 of 0.5: the
    samples are whole numbers of 255ths. *)
Lemma half_gray_tolerance (p : byte) :
  within (5 # 100) (float_div255 "127"%byte) (float_div255 p) ->
  within (5 # 100) (1 # 2) (float_div255 p).
Proof.
  unfold within, float_div255. intros H.
  apply Qabs_Qle_condition in H. apply Qabs_Qle_condition.
  pose proof (byte_to_Z_range p) as Hp.
  change (byte_to_Z "127"%byte) with 127%Z in H.
  destruct H as [Hlo Hhi]. revert Hlo Hhi.
  unfold Qle, Qminus, Qplus, Qopp. simpl. lia.
Qed.

(** ** Single-precision quotients *)

Lemma multiple_of_255thb_spec (v : Q) :
  multiple_of_255thb v = true <-> multiple_of_255th v.
Proof.
  unfold multiple_of_255thb, multiple_of_255th, Qeq. simpl.
  rewrite Z.eqb_eq, Z.mod_divide by lia. split.
  - intros [k Hk]. exists k. lia.
  - intros [k Hk]. exists k. lia.
Qed.

Lemma div255_f32_checked (p : byte) : div255_f32_check p = true.
Proof. destruct p; vm_compute; reflexivity. Qed.

(** The quotient of a sample by 255 in single precision lies in the unit
    interval and within [2^-25] of the exact quotient; it is a whole
    number of 255ths for the samples 0 and 255 and for no other. *)
Lemma div255_f32_level (p : byte) :
  unit_interval (div255_f32 p)
  /\ within (1 # 33554432) (byte_to_Z p # 255) (div255_f32 p)
  /\ (multiple_of_255th (div255_f32 p)
      <-> (byte_to_Z p = 0 \/ byte_to_Z p = 255)%Z).
Proof.
  pose proof (div255_f32_checked p) as H. unfold div255_f32_check in H.
  cbv zeta in H.
  apply andb_prop in H. destruct H as [H Hm].
  apply andb_prop in H. destruct H as [H Hw].
  apply andb_prop in H. destruct H as [H0 H1].
  apply Qle_bool_iff in H0, H1, Hw. apply Bool.eqb_prop in Hm.
  split; [split; assumption|]. split; [exact Hw|].
  rewrite <- multiple_of_255thb_spec, Hm, Bool.orb_true_iff, !Z.eqb_eq.
  reflexivity.
Qed.

(** A function of a sample takes at most 256 values. *)
Lemma distinct_values_bound (f : byte -> Q) (px : list byte) (l : list Q) :
  NoDup l ->
  (forall v, v ∈ l -> v ∈ map f px) ->
  length l <= 256.
Proof.
  intros Hnd Hsub.
  set (levels := map (fun k => f (byte_of_Z (Z.of_nat k))) (seq 0 256)).
  assert (Hlen : length levels = 256).
  { unfold levels. rewrite length_map, length_seq. reflexivity. }
  rewrite <- Hlen. apply submseteq_length, NoDup_submseteq; [exact Hnd|].
  intros v Hv. apply Hsub, list_elem_of_In, in_map_iff in Hv.
  destruct Hv as (b & <- & _).
  apply list_elem_of_In, in_map_iff. exists (Z.to_nat (byte_to_Z b)).
  pose proof (byte_to_Z_range b) as Hb. split.
  - rewrite Z2Nat.id by lia. rewrite byte_of_to_Z. reflexivity.
  - apply in_seq. lia.
Qed.

(** ** Views of strided tensors *)

(** [view] on sample layouts of a 2x3x4x5 tensor. A contiguous tensor
    reshapes to 6 by 20, and so does its slice [y[:, 1:2]] of one
    channel; the transpose of the last two dimensions, the swap of the
    first two and the slice [y[:, :2]] of two channels do not. *)
Example compute_stride_samples :
  compute_stride [2; 3; 4; 5] [60; 20; 5; 1] [6; 20] = Some [20; 1]
  /\ compute_stride [2; 1; 4; 5] [60; 20; 5; 1] [2; 20] = Some [60; 1]
  /\ compute_stride [2; 3; 5; 4] [60; 20; 1; 5] [6; 20] = None
  /\ compute_stride [3; 2; 4; 5] [20; 60; 5; 1] [6; 20] = None
  /\ compute_stride [2; 2; 4; 5] [60; 20; 5; 1] [4; 20] = None.
Proof. repeat split; vm_compute; reflexivity. Qed.

(** Where [view] succeeds in these samples, the view has the elements of
    the tensor, in their order. *)
Example view_keeps_elements :
  element_offsets [6; 20] [20; 1] 0
  = element_offsets [2; 3; 4; 5] [60; 20; 5; 1] 0
  /\ element_offsets [2; 20] [60; 1] 20
     = element_offsets [2; 1; 4; 5] [60; 20; 5; 1] 20.
Proof. split; vm_compute; reflexivity. Qed.

(** The values of the transposed sample tensor, in the order of its
    indices. *)
Example transposed_values :
  strided_values sample_state transposed_input
  = Some [1 # 2; -1 # 2; 3 # 2; 1 # 1].
Proof. reflexivity. Qed.

(** ** The backward pass *)

(** C1. For every gradient tensor [G], whatever its shape, [backward]
    returns [G] itself and leaves the state alone: the returned gradient
    has the shape and the values of the incoming one, so any magnitude
    computed from it is that of the gradient entering the bottleneck (no
    scaling, no zeroing). *)
Theorem backward_identity (ctx : Ctx) (G : Tensor) (s : State) :
  backward ctx G s = (Ok G, s)
  /\ result_of (backward ctx G s) = Ok (shape G, tensor_values s G)
  /\ forall magnitude : option (list Q) -> Q,
       magnitude (tensor_values (snd (backward ctx G s)) G)
       = magnitude (tensor_values s G).
Proof.
  unfold backward, ret. simpl. repeat split.
Qed.

Section Properties.

Variable jpeg_save : PILImage -> Z -> option (list byte).
Variable jpeg_open : list byte -> option PILImage.

Abbreviation fwd := (forward jpeg_save jpeg_open).

(** The run of [forward] on a 4-D tensor whose storage is in the heap,
    branch by branch. *)
Lemma forward_4d ctx x s b c w h d :
  shape x = [b; c; w; h] ->
  tensor_values s x = Some d ->
  fwd ctx x s =
    let img := image_of_values (b * c) (w * h) (map mul255 d) in
    let hp := (heap s ++ [replicate (numel [b; c; w; h]) 0%Q]) ++ [map mul255 d] in
    let cs1 := calls s ++ [JpegSave img 90] in
    match jpeg_save img 90 with
    | None => (Raise EncoderError, {| heap := hp; calls := cs1 |})
    | Some bs =>
        let cs2 := cs1 ++ [JpegOpen bs] in
        match jpeg_open bs with
        | None => (Raise DecoderError, {| heap := hp; calls := cs2 |})
        | Some img' =>
            if Nat.eqb (length (pixels img')) (height img' * width img' * 1)
            then
              let hp' := hp ++ [map float_div255 (pixels img')] in
              if Nat.eqb (numel [b; c; w; h]) (numel [1; height img'; width img'])
              then (Ok {| storage := length hp; shape := [b; c; w; h] |},
                    {| heap := hp'; calls := cs2 |})
              else (Raise (ViewError [b; c; w; h] (numel [1; height img'; width img'])),
                    {| heap := hp'; calls := cs2 |})
            else (Raise (ViewError [height img'; width img'; 1] (length (pixels img'))),
                  {| heap := hp; calls := cs2 |})
        end
    end.
Proof.
  intros Hshape Hx. unfold tensor_values in Hx.
  unfold forward, bind, zeros_like, alloc, ret, unpack4. simpl.
  rewrite Hshape. simpl.
  unfold view. simpl. rewrite Hshape, numel_2d, Nat.eqb_refl. simpl.
  unfold to_pil_image, bind, load, alloc, ret. simpl.
  rewrite (lookup_app_l_Some _ _ _ _ Hx). simpl.
  rewrite list_lookup_middle by reflexivity. simpl.
  unfold image_save, bind, log_call. simpl.
  destruct (jpeg_save _ 90) as [bs|]; [|reflexivity]. simpl.
  unfold image_open, bind, log_call. simpl.
  rewrite stream_roundtrip.
  destruct (jpeg_open bs) as [img'|]; [|reflexivity]. simpl.
  unfold to_tensor, bind, alloc, ret.
  destruct (Nat.eqb (length (pixels img')) _); [|reflexivity]. simpl.
  destruct (Nat.eqb (numel [b; c; w; h]) _); reflexivity.
Qed.

Lemma forward_not_4d ctx x s :
  length (shape x) <> 4 ->
  fwd ctx x s =
    (Raise (UnpackError 4 (length (shape x))),
     {| heap := heap s ++ [replicate (numel (shape x)) 0%Q];
        calls := calls s |}).
Proof.
  intros Hlen.
  unfold forward, bind, zeros_like, alloc, ret, unpack4. simpl.
  destruct (shape x) as [|n0 [|n1 [|n2 [|n3 [|n4 l]]]]];
    simpl in *; try reflexivity.
  contradiction Hlen. reflexivity.
Qed.

(** Every 4-D shape or not: the decision Python's unpacking takes. *)
Lemma shape_4d_dec (shp : list nat) :
  (exists b c w h, shp = [b; c; w; h]) \/ length shp <> 4.
Proof.
  destruct shp as [|n0 [|n1 [|n2 [|n3 [|n4 l]]]]];
    try (right; simpl; lia).
  left. eauto.
Qed.

(** What a successful run has done. *)
Lemma forward_ok_inv ctx x s d r s' :
  tensor_values s x = Some d ->
  fwd ctx x s = (Ok r, s') ->
  exists b c w h bs img',
    shape x = [b; c; w; h]
    /\ jpeg_save (image_of_values (b * c) (w * h) (map mul255 d)) 90 = Some bs
    /\ jpeg_open bs = Some img'
    /\ length (pixels img') = height img' * width img' * 1
    /\ numel [b; c; w; h] = numel [1; height img'; width img']
    /\ r = {| storage := S (S (length (heap s))); shape := [b; c; w; h] |}
    /\ s' = {| heap := heap s ++ [replicate (numel [b; c; w; h]) 0%Q;
                                  map mul255 d;
                                  map float_div255 (pixels img')];
               calls := calls s
                        ++ [JpegSave (image_of_values (b * c) (w * h) (map mul255 d)) 90;
                            JpegOpen bs] |}.
Proof.
  intros Hx Hrun.
  destruct (shape_4d_dec (shape x)) as [(b & c & w & h & Hshape)|Hne].
  2:{ rewrite (forward_not_4d ctx x s Hne) in Hrun. discriminate. }
  rewrite (forward_4d ctx x s b c w h d Hshape Hx) in Hrun. cbv zeta in Hrun.
  destruct (jpeg_save _ 90) as [bs|] eqn:Hsave; [|discriminate].
  destruct (jpeg_open bs) as [img'|] eqn:Hopen; [|discriminate].
  destruct (Nat.eqb (length (pixels img')) _) eqn:Hpx; [|discriminate].
  destruct (Nat.eqb (numel [b; c; w; h]) _) eqn:Hnum; [|discriminate].
  apply Nat.eqb_eq in Hpx, Hnum.
  exists b, c, w, h, bs, img'.
  inversion Hrun; subst r s'; clear Hrun.
  repeat split; try assumption.
  - f_equal. rewrite !length_app. simpl. lia.
  - f_equal; rewrite <- !app_assoc; reflexivity.
Qed.

Lemma lookup_third {A} (l : list A) (a b c : A) :
  (l ++ [a; b; c]) !! S (S (length l)) = Some c.
Proof.
  rewrite lookup_app_r by lia.
  replace (S (S (length l)) - length l) with 2 by lia. reflexivity.
Qed.

(** The values of the tensor a successful run returns are the decoded
    samples, each divided by 255. *)
Lemma forward_ok_values ctx x s d r s' :
  tensor_values s x = Some d ->
  fwd ctx x s = (Ok r, s') ->
  exists img',
    tensor_values s' r = Some (map float_div255 (pixels img'))
    /\ length (pixels img') = numel (shape x)
    /\ shape r = shape x.
Proof.
  intros Hx Hrun.
  destruct (forward_ok_inv ctx x s d r s' Hx Hrun)
    as (b & c & w & h & bs & img' & Hshape & _ & _ & Hpx & Hnum & -> & ->).
  exists img'. unfold tensor_values. simpl.
  rewrite lookup_third, Hshape, Hnum, Hpx.
  repeat split. unfold numel. simpl. lia.
Qed.

(** C2. For every input tensor on which [forward] succeeds, the returned
    tensor has exactly the shape of the input, and holds one value per
    element of that shape. *)
Theorem forward_preserves_shape ctx x s d r s' :
  tensor_values s x = Some d ->
  fwd ctx x s = (Ok r, s') ->
  shape r = shape x
  /\ exists vals, tensor_values s' r = Some vals
                  /\ length vals = numel (shape x).
Proof.
  intros Hx Hrun.
  destruct (forward_ok_values ctx x s d r s' Hx Hrun) as (img' & Hv & Hlen & Hs).
  split; [exact Hs|].
  exists (map float_div255 (pixels img')). split; [exact Hv|].
  rewrite length_map. exact Hlen.
Qed.

(** The run of [forward32] on a 4-D tensor whose storage is in the heap,
    branch by branch. *)
Lemma forward32_4d ctx x s b c w h d :
  shape x = [b; c; w; h] ->
  tensor_values s x = Some d ->
  forward32 jpeg_save jpeg_open ctx x s =
    let img := image_of_values (b * c) (w * h) (map mul255_f32 d) in
    let hp := (heap s ++ [replicate (numel [b; c; w; h]) 0%Q])
              ++ [map mul255_f32 d] in
    let cs1 := calls s ++ [JpegSave img 90] in
    match jpeg_save img 90 with
    | None => (Raise EncoderError, {| heap := hp; calls := cs1 |})
    | Some bs =>
        let cs2 := cs1 ++ [JpegOpen bs] in
        match jpeg_open bs with
        | None => (Raise DecoderError, {| heap := hp; calls := cs2 |})
        | Some img' =>
            if Nat.eqb (length (pixels img')) (height img' * width img' * 1)
            then
              let hp' := hp ++ [map div255_f32 (pixels img')] in
              if Nat.eqb (numel [b; c; w; h]) (numel [1; height img'; width img'])
              then (Ok {| storage := length hp; shape := [b; c; w; h] |},
                    {| heap := hp'; calls := cs2 |})
              else (Raise (ViewError [b; c; w; h] (numel [1; height img'; width img'])),
                    {| heap := hp'; calls := cs2 |})
            else (Raise (ViewError [height img'; width img'; 1] (length (pixels img'))),
                  {| heap := hp; calls := cs2 |})
        end
    end.
Proof.
  intros Hshape Hx. unfold tensor_values in Hx.
  unfold forward32, bind, zeros_like, alloc, ret, unpack4. simpl.
  rewrite Hshape. simpl.
  unfold view. simpl. rewrite Hshape, numel_2d, Nat.eqb_refl. simpl.
  unfold to_pil_image32, bind, load, alloc, ret. simpl.
  rewrite (lookup_app_l_Some _ _ _ _ Hx). simpl.
  rewrite list_lookup_middle by reflexivity. simpl.
  unfold image_save, bind, log_call. simpl.
  destruct (jpeg_save _ 90) as [bs|]; [|reflexivity]. simpl.
  unfold image_open, bind, log_call. simpl.
  rewrite stream_roundtrip.
  destruct (jpeg_open bs) as [img'|]; [|reflexivity]. simpl.
  unfold to_tensor32, bind, alloc, ret.
  destruct (Nat.eqb (length (pixels img')) _); [|reflexivity]. simpl.
  destruct (Nat.eqb (numel [b; c; w; h]) _); reflexivity.
Qed.

Lemma forward32_not_4d ctx x s :
  length (shape x) <> 4 ->
  forward32 jpeg_save jpeg_open ctx x s =
    (Raise (UnpackError 4 (length (shape x))),
     {| heap := heap s ++ [replicate (numel (shape x)) 0%Q];
        calls := calls s |}).
Proof.
  intros Hlen.
  unfold forward32, bind, zeros_like, alloc, ret, unpack4. simpl.
  destruct (shape x) as [|n0 [|n1 [|n2 [|n3 [|n4 l]]]]];
    simpl in *; try reflexivity.
  contradiction Hlen. reflexivity.
Qed.

(** C9, as the code has it. Every value of the tensor [forward] returns
    is the single-precision quotient by 255 of an 8-bit sample [k] the
    decoder returned, one value per sample and per element of the input.
    It lies in the unit interval and within [2^-25] of [k/255], and it is
    an exact multiple of 1/255 for [k = 0] and [k = 255] only. The output
    takes at most 256 distinct values, whatever the range of the
    input. *)
Theorem forward_output_levels ctx x s d r s' :
  tensor_values s x = Some d ->
  forward32 jpeg_save jpeg_open ctx x s = (Ok r, s') ->
  exists bs img' vals,
    last (calls s') = Some (JpegOpen bs)
    /\ jpeg_open bs = Some img'
    /\ tensor_values s' r = Some vals
    /\ length vals = numel (shape x)
    /\ Forall2 (fun p v =>
                  v = div255_f32 p
                  /\ unit_interval v
                  /\ within (1 # 33554432) (byte_to_Z p # 255) v
                  /\ (multiple_of_255th v
                      <-> (byte_to_Z p = 0 \/ byte_to_Z p = 255)%Z))
               (pixels img') vals
    /\ forall l : list Q,
         NoDup l -> (forall v, v ∈ l -> v ∈ vals) -> length l <= 256.
Proof.
  intros Hx Hrun.
  destruct (shape_4d_dec (shape x)) as [(b & c & w & h & Hshape)|Hne].
  2:{ rewrite (forward32_not_4d ctx x s Hne) in Hrun. discriminate. }
  rewrite (forward32_4d ctx x s b c w h d Hshape Hx) in Hrun. cbv zeta in Hrun.
  destruct (jpeg_save _ 90) as [bs|] eqn:Hsave; [|discriminate].
  destruct (jpeg_open bs) as [img'|] eqn:Hopen; [|discriminate].
  destruct (Nat.eqb (length (pixels img')) _) eqn:Hpx; [|discriminate].
  destruct (Nat.eqb (numel [b; c; w; h]) _) eqn:Hnum; [|discriminate].
  apply Nat.eqb_eq in Hpx, Hnum.
  inversion Hrun; subst r s'; clear Hrun.
  exists bs, img', (map div255_f32 (pixels img')).
  split.
  { simpl. apply last_Some. eexists. reflexivity. }
  split; [exact Hopen|].
  split.
  { unfold tensor_values. simpl. apply list_lookup_middle.
    rewrite !length_app. reflexivity. }
  split.
  { rewrite length_map, Hshape, Hnum, Hpx. unfold numel. simpl. lia. }
  split.
  - apply Forall2_fmap_r, Forall_Forall2_diag, Forall_forall.
    intros p _. split; [reflexivity | apply div255_f32_level].
  - intros l. apply distinct_values_bound.
Qed.

(** C10. [forward] does not write to its input: when it returns, the
    input holds the values it held before, every storage that existed
    before the call is as it was, and the returned tensor lives in a
    storage that did not exist before the call, hence not in that of the
    input. *)
Theorem forward_keeps_input ctx x s d r s' :
  tensor_values s x = Some d ->
  fwd ctx x s = (Ok r, s') ->
  tensor_values s' x = Some d
  /\ storage r <> storage x
  /\ tensor_values s r = None
  /\ forall i, i < length (heap s) -> heap s' !! i = heap s !! i.
Proof.
  intros Hx Hrun.
  destruct (forward_ok_inv ctx x s d r s' Hx Hrun)
    as (b & c & w & h & bs & img' & _ & _ & _ & _ & _ & -> & ->).
  unfold tensor_values in *. simpl.
  pose proof (lookup_lt_Some _ _ _ Hx) as Hlt.
  repeat split.
  - apply lookup_app_l_Some. exact Hx.
  - lia.
  - apply lookup_ge_None. lia.
  - intros i Hi. apply lookup_app_l. exact Hi.
Qed.

(** C3, as the code has it. For every input tensor on which [forward]
    returns, values outside the unit interval included, the returned
    tensor holds one value per element of the input, and every one of
    them lies in the unit interval. *)
Theorem forward_output_in_unit_interval ctx x s d r s' :
  tensor_values s x = Some d ->
  fwd ctx x s = (Ok r, s') ->
  exists vals,
    tensor_values s' r = Some vals
    /\ length vals = numel (shape x)
    /\ Forall unit_interval vals.
Proof.
  intros Hx Hrun.
  destruct (forward_ok_values ctx x s d r s' Hx Hrun) as (img' & Hv & Hlen & _).
  exists (map float_div255 (pixels img')).
  split; [exact Hv|]. split.
  - rewrite length_map. exact Hlen.
  - apply Forall_map, Forall_forall. intros p _. apply float_div255_unit.
Qed.

Lemma forward_spec_not_4d (shp : list nat) (d : list Q) :
  length shp <> 4 -> forward_spec jpeg_save jpeg_open shp d = None.
Proof.
  intros Hne.
  destruct shp as [|n0 [|n1 [|n2 [|n3 [|n4 l]]]]]; try reflexivity.
  contradiction Hne. reflexivity.
Qed.

(** C4. [forward] is the pipeline of the specification: on every tensor
    it returns what reshaping to batch*channels rows of width*height
    columns, encoding that single-channel image at quality 90, decoding
    to floats in the unit interval and reshaping back returns, and it
    raises exactly when that pipeline has no result. A successful run
    calls the codec twice, in this order: the encoder at quality 90, then
    the decoder on the bytes the encoder produced. *)
Theorem forward_refines_spec ctx x s d :
  tensor_values s x = Some d ->
  length d = numel (shape x) ->
  observe (fwd ctx x s) = forward_spec jpeg_save jpeg_open (shape x) d
  /\ forall r s',
       fwd ctx x s = (Ok r, s') ->
       exists b c w h bs,
         shape x = [b; c; w; h]
         /\ jpeg_save (image_of_values (b * c) (w * h) (map mul255 d)) 90 = Some bs
         /\ calls s' = calls s
                       ++ [JpegSave (image_of_values (b * c) (w * h) (map mul255 d)) 90;
                           JpegOpen bs].
Proof.
  intros Hx Hlen. split.
  - destruct (shape_4d_dec (shape x)) as [(b & c & w & h & Hshape)|Hne].
    2:{ rewrite (forward_not_4d ctx x s Hne), forward_spec_not_4d by exact Hne.
        reflexivity. }
    rewrite (forward_4d ctx x s b c w h d Hshape Hx). cbv zeta.
    rewrite Hshape in *. unfold forward_spec.
    rewrite image_of_matrix by (rewrite Hlen, <- numel_2d; unfold numel; simpl; lia).
    destruct (jpeg_save _ 90) as [bs|]; [|reflexivity]. simpl.
    destruct (jpeg_open bs) as [img'|]; [|reflexivity]. simpl.
    unfold decoded_floats, reshape. rewrite Nat.mul_1_r.
    destruct (Nat.eqb (length (pixels img')) _); [|reflexivity]. simpl.
    rewrite numel_cons1.
    destruct (Nat.eqb (numel [b; c; w; h]) _); [|reflexivity].
    unfold observe, tensor_values. simpl.
    rewrite list_lookup_middle by reflexivity. reflexivity.
  - intros r s' Hrun.
    destruct (forward_ok_inv ctx x s d r s' Hx Hrun)
      as (b & c & w & h & bs & img' & Hshape & Hsave & _ & _ & _ & _ & ->).
    exists b, c, w, h, bs. repeat split; assumption.
Qed.

(** The state a run leaves: the heap has grown at its end, and the codec
    was called at most once to encode and then at most once to decode. *)
Lemma forward_state ctx x s d :
  tensor_values s x = Some d ->
  exists hp cs,
    snd (fwd ctx x s) = {| heap := heap s ++ hp; calls := calls s ++ cs |}
    /\ (cs = []
        \/ (exists img, cs = [JpegSave img 90])
        \/ (exists img bs, cs = [JpegSave img 90; JpegOpen bs]))
    /\ (length (shape x) <> 4 -> cs = []).
Proof.
  intros Hx.
  destruct (shape_4d_dec (shape x)) as [(b & c & w & h & Hshape)|Hne].
  2:{ rewrite (forward_not_4d ctx x s Hne). simpl.
      eexists _, []. rewrite (app_nil_r (calls s)). split; [reflexivity|].
      split; [left; reflexivity | intros _; reflexivity]. }
  rewrite (forward_4d ctx x s b c w h d Hshape Hx). cbv zeta.
  assert (H4 : length (shape x) <> 4 -> forall cs : list CodecCall, cs = [])
    by (rewrite Hshape; intros Hne; contradiction Hne; reflexivity).
  destruct (jpeg_save _ 90) as [bs|]; simpl.
  2:{ eexists _, _. rewrite <- app_assoc. split; [reflexivity|]. split.
      - right. left. eexists. reflexivity.
      - intros Hne. apply H4, Hne. }
  destruct (jpeg_open bs) as [img'|]; simpl.
  2:{ eexists _, _. rewrite <- !app_assoc. split; [reflexivity|]. split.
      - right. right. eexists _, _. reflexivity.
      - intros Hne. apply H4, Hne. }
  destruct (Nat.eqb (length (pixels img')) _); simpl.
  2:{ eexists _, _. rewrite <- !app_assoc. split; [reflexivity|]. split.
      - right. right. eexists _, _. reflexivity.
      - intros Hne. apply H4, Hne. }
  destruct (Nat.eqb (numel [b; c; w; h]) _); simpl;
    (eexists _, _; rewrite <- !app_assoc; split; [reflexivity|]; split;
     [ right; right; eexists _, _; reflexivity
     | intros Hne; apply H4, Hne ]).
Qed.

(** No run writes to a storage that existed before it. *)
Lemma forward_frame ctx x s d i :
  tensor_values s x = Some d ->
  i < length (heap s) ->
  heap (snd (fwd ctx x s)) !! i = heap s !! i.
Proof.
  intros Hx Hi.
  destruct (forward_state ctx x s d Hx) as (hp & cs & -> & _). simpl.
  apply lookup_app_l. exact Hi.
Qed.





(** The outcome a caller sees depends on the shape and the values of the
    input, not on the context, the handle or the rest of the state. *)
Lemma forward_result_of ctx1 ctx2 x1 x2 s1 s2 d :
  tensor_values s1 x1 = Some d ->
  tensor_values s2 x2 = Some d ->
  shape x1 = shape x2 ->
  result_of (fwd ctx1 x1 s1) = result_of (fwd ctx2 x2 s2).
Proof.
  intros H1 H2 Hsh.
  destruct (shape_4d_dec (shape x1)) as [(b & c & w & h & Hshape)|Hne].
  2:{ rewrite (forward_not_4d ctx1 x1 s1 Hne).
      rewrite Hsh in Hne. rewrite (forward_not_4d ctx2 x2 s2 Hne).
      simpl. rewrite Hsh. reflexivity. }
  rewrite (forward_4d ctx1 x1 s1 b c w h d Hshape H1).
  rewrite Hsh in Hshape.
  rewrite (forward_4d ctx2 x2 s2 b c w h d Hshape H2). cbv zeta.
  destruct (jpeg_save _ 90) as [bs|]; [|reflexivity].
  destruct (jpeg_open bs) as [img'|]; [|reflexivity].
  destruct (Nat.eqb (length (pixels img')) _); [|reflexivity].
  destruct (Nat.eqb (numel [b; c; w; h]) _); [|reflexivity].
  unfold result_of, tensor_values. simpl.
  rewrite !list_lookup_middle by reflexivity. reflexivity.
Qed.

(** C6. Both methods are pure. Runs of [forward] on tensors of equal
    shape and equal values give the same outcome (the same shape and
    values, or the same exception) whatever the context and the state
    they run in, in particular a second run after a first one; a run
    leaves every storage that existed before it as it was. [backward]
    returns its argument and the state it got, whatever the context. *)
Theorem bottleneck_is_pure ctx1 ctx2 x1 x2 s1 s2 d G :
  tensor_values s1 x1 = Some d ->
  tensor_values s2 x2 = Some d ->
  shape x1 = shape x2 ->
  result_of (fwd ctx1 x1 s1) = result_of (fwd ctx2 x2 s2)
  /\ result_of (fwd ctx2 x1 (snd (fwd ctx1 x1 s1))) = result_of (fwd ctx1 x1 s1)
  /\ (forall i, i < length (heap s1) ->
                heap (snd (fwd ctx1 x1 s1)) !! i = heap s1 !! i)
  /\ calls (snd (backward ctx1 G s1)) = calls s1
  /\ heap (snd (backward ctx1 G s1)) = heap s1
  /\ backward ctx1 G s1 = backward ctx2 G s1
  /\ fst (backward ctx1 G s1) = fst (backward ctx1 G s2).
Proof.
  intros H1 H2 Hsh. split; [|split; [|split]].
  - apply forward_result_of with (d := d); assumption.
  - apply forward_result_of with (d := d); try done.
    unfold tensor_values.
    rewrite (forward_frame ctx1 x1 s1 d (storage x1) H1); [exact H1|].
    apply lookup_lt_Some in H1. exact H1.
  - intros i Hi. apply forward_frame with (d := d); assumption.
  - repeat split.
Qed.

(** The all-0.5 scenario, as far as the notebook decides it. A
    single-channel 28x28 tensor whose values are all 0.5 reaches the
    encoder as one row of 784 samples 127. What comes back is the codec's
    affair: if it returns 784 samples within 0.05 of the sample 127 (in
    units of the normalised samples), the values [forward] returns lie
    within 0.05 of 0.5. *)
Theorem forward_half_gray ctx x s bs img' :
  shape x = [1; 1; 28; 28] ->
  tensor_values s x = Some (replicate 784 (1 # 2)) ->
  jpeg_save half_gray 90 = Some bs ->
  jpeg_open bs = Some img' ->
  width img' = 784 ->
  height img' = 1 ->
  length (pixels img') = 784 ->
  Forall (fun p => within (5 # 100) (float_div255 "127"%byte) (float_div255 p))
         (pixels img') ->
  exists r s' vals,
    fwd ctx x s = (Ok r, s')
    /\ shape r = [1; 1; 28; 28]
    /\ tensor_values s' r = Some vals
    /\ length vals = 784
    /\ Forall (within (5 # 100) (1 # 2)) vals.
Proof.
  intros Hshape Hx Hsave Hopen Hw Hh Hlen Htol.
  rewrite (forward_4d ctx x s 1 1 28 28 _ Hshape Hx). cbv zeta.
  change (image_of_values (1 * 1) (28 * 28) (map mul255 (replicate 784 (1 # 2))))
    with half_gray.
  rewrite Hsave, Hopen, Hh, Hw, Hlen. simpl.
  eexists _, _, _. split; [reflexivity|]. split; [reflexivity|].
  unfold tensor_values. simpl.
  rewrite list_lookup_middle by reflexivity.
  split; [reflexivity|]. split; [rewrite length_map; exact Hlen|].
  apply Forall_map. eapply Forall_impl; [exact Htol|].
  intros p Hp. apply half_gray_tolerance. exact Hp.
Qed.

End Properties.

(* ================================================================== *)
(** * The properties on the sample runs *)

Lemma sample_run_ok : sample_run = (Ok sample_output, snd sample_run).
Proof. vm_compute. reflexivity. Qed.

Lemma forward_preserves_shape_witness :
  shape sample_output = shape sample_input
  /\ exists vals, tensor_values (snd sample_run) sample_output = Some vals
                  /\ length vals = numel (shape sample_input).
Proof.
  apply (forward_preserves_shape SampleCodec.save SampleCodec.open
           ctx0 sample_input sample_state sample_values).
  - reflexivity.
  - vm_compute. reflexivity.
Defined.

(** C3, the counterexample. The input value 1.5 is handed to the encoder
    as the sample 126 (382 modulo 256), where its saturation to the unit
    interval, 1.0, is handed over as 255: the image encoded for a tensor
    is not the image encoded for the clamped tensor. *)
Lemma forward_does_not_clamp :
  encoded_images
    (calls (snd (forward SampleCodec.save SampleCodec.open ctx0
                   (tensor0 [1; 1; 1; 1]) (state_with [3 # 2]))))
  = [{| width := 1; height := 1; pixels := ["126"%byte] |}]
  /\ encoded_images
       (calls (snd (forward SampleCodec.save SampleCodec.open ctx0
                      (tensor0 [1; 1; 1; 1]) (state_with (map clamp01 [3 # 2])))))
     = [{| width := 1; height := 1; pixels := ["255"%byte] |}]
  /\ encoded_images
       (calls (snd (forward SampleCodec.save SampleCodec.open ctx0
                      (tensor0 [1; 1; 1; 1]) (state_with [3 # 2]))))
     <> encoded_images
          (calls (snd (forward SampleCodec.save SampleCodec.open ctx0
                         (tensor0 [1; 1; 1; 1]) (state_with (map clamp01 [3 # 2]))))).
Proof.
  split; [|split]; try (vm_compute; reflexivity).
  vm_compute. discriminate.
Qed.

Lemma forward_output_in_unit_interval_witness :
  exists vals,
    tensor_values (snd sample_run) sample_output = Some vals
    /\ length vals = numel (shape sample_input)
    /\ Forall unit_interval vals.
Proof.
  apply (forward_output_in_unit_interval SampleCodec.save SampleCodec.open
           ctx0 sample_input sample_state sample_values).
  - reflexivity.
  - vm_compute. reflexivity.
Defined.

Lemma forward_refines_spec_witness :
  observe sample_run
  = forward_spec SampleCodec.save SampleCodec.open (shape sample_input) sample_values
  /\ forall r s',
       sample_run = (Ok r, s') ->
       exists b c w h bs,
         shape sample_input = [b; c; w; h]
         /\ SampleCodec.save
              (image_of_values (b * c) (w * h) (map mul255 sample_values)) 90
            = Some bs
         /\ calls s' = calls sample_state
                       ++ [JpegSave (image_of_values (b * c) (w * h)
                                       (map mul255 sample_values)) 90;
                           JpegOpen bs].
Proof.
  apply (forward_refines_spec SampleCodec.save SampleCodec.open
           ctx0 sample_input sample_state sample_values); reflexivity.
Defined.

(** On the contiguous sample tensor the three embeddings of [forward]
    make the same codec calls, and the one with strides returns what the
    one without returns. *)
Example embeddings_agree_on_sample :
  result_of (forward_strided SampleCodec.save SampleCodec.open ctx0
               contiguous_input sample_state)
  = result_of sample_run
  /\ calls (snd (forward_strided SampleCodec.save SampleCodec.open ctx0
                   contiguous_input sample_state))
     = calls (snd sample_run)
  /\ calls (snd sample_run32) = calls (snd sample_run).
Proof. repeat split; vm_compute; reflexivity. Qed.


Lemma bottleneck_is_pure_witness :
  result_of sample_run
  = result_of (forward SampleCodec.save SampleCodec.open other_ctx other_input other_state)
  /\ result_of (forward SampleCodec.save SampleCodec.open other_ctx sample_input
                  (snd sample_run))
     = result_of sample_run
  /\ (forall i, i < length (heap sample_state) ->
                heap (snd sample_run) !! i = heap sample_state !! i)
  /\ calls (snd (backward ctx0 sample_output sample_state)) = calls sample_state
  /\ heap (snd (backward ctx0 sample_output sample_state)) = heap sample_state
  /\ backward ctx0 sample_output sample_state
     = backward other_ctx sample_output sample_state
  /\ fst (backward ctx0 sample_output sample_state)
     = fst (backward ctx0 sample_output other_state).
Proof.
  apply (bottleneck_is_pure SampleCodec.save SampleCodec.open
           ctx0 other_ctx sample_input other_input sample_state other_state
           sample_values sample_output); reflexivity.
Defined.

Lemma forward_half_gray_witness :
  exists r s' vals,
    half_run = (Ok r, s')
    /\ shape r = [1; 1; 28; 28]
    /\ tensor_values s' r = Some vals
    /\ length vals = 784
    /\ Forall (within (5 # 100) (1 # 2)) vals.
Proof.
  eapply (forward_half_gray SampleCodec.save SampleCodec.open
            ctx0 half_input (state_with half_values)).
  - reflexivity.
  - reflexivity.
  - vm_compute. reflexivity.
  - vm_compute. reflexivity.
  - reflexivity.
  - reflexivity.
  - reflexivity.
  - change (Forall (fun p => within (5 # 100) (float_div255 "127"%byte) (float_div255 p))
                   (replicate 784 "126"%byte)).
    apply Forall_replicate. vm_compute. discriminate.
Defined.

(** C9, the counterexample. In single precision the sample run returns,
    for the decoded sample 126, the value 16579837/33554432: the binary32
    number nearest to 126/255, and not a multiple of 1/255 (255 times it
    is 126 and 3/33554432). *)
Lemma forward_output_not_multiple :
  exists r s' vals,
    sample_run32 = (Ok r, s')
    /\ tensor_values s' r = Some vals
    /\ vals !! 0 = Some (16579837 # 33554432)
    /\ ~ multiple_of_255th (16579837 # 33554432)
    /\ ~ Forall multiple_of_255th vals.
Proof.
  assert (Hno : ~ multiple_of_255th (16579837 # 33554432)).
  { intros [k Hk]. unfold Qeq in Hk. simpl in Hk. lia. }
  eexists _, _, _. split; [vm_compute; reflexivity|].
  split; [vm_compute; reflexivity|].
  split; [reflexivity|]. split; [exact Hno|].
  intros Hall. apply Hno. inversion Hall. assumption.
Qed.

Lemma forward_output_levels_witness :
  exists bs img' vals,
    last (calls (snd sample_run32)) = Some (JpegOpen bs)
    /\ SampleCodec.open bs = Some img'
    /\ tensor_values (snd sample_run32) sample_output = Some vals
    /\ length vals = numel (shape sample_input)
    /\ Forall2 (fun p v =>
                  v = div255_f32 p
                  /\ unit_interval v
                  /\ within (1 # 33554432) (byte_to_Z p # 255) v
                  /\ (multiple_of_255th v
                      <-> (byte_to_Z p = 0 \/ byte_to_Z p = 255)%Z))
               (pixels img') vals
    /\ forall l : list Q,
         NoDup l -> (forall v, v ∈ l -> v ∈ vals) -> length l <= 256.
Proof.
  apply (forward_output_levels SampleCodec.save SampleCodec.open
           ctx0 sample_input sample_state sample_values).
  - reflexivity.
  - vm_compute. reflexivity.
Defined.

Lemma forward_keeps_input_witness :
  tensor_values (snd sample_run) sample_input = Some sample_values
  /\ storage sample_output <> storage sample_input
  /\ tensor_values sample_state sample_output = None
  /\ forall i, i < length (heap sample_state) ->
               heap (snd sample_run) !! i = heap sample_state !! i.
Proof.
  apply (forward_keeps_input SampleCodec.save SampleCodec.open
           ctx0 sample_input sample_state sample_values).
  - reflexivity.
  - vm_compute. reflexivity.
Defined.

(* ================================================================== *)
(** * Further properties of the bottleneck *)

(** ** The two conversions *)




Lemma samples_roundtrip (px : list byte) :
  map to_uint8 (map mul255 (map float_div255 px)) = px.
Proof.
  induction px as [|p px' IH]; simpl; [reflexivity|].
  f_equal; [apply sample_roundtrip | exact IH].
Qed.

Lemma lookup_map_Some {A B} (f : A -> B) (l : list A) (i : nat) (y : B) :
  map f l !! i = Some y <-> f <$> (l !! i) = Some y.
Proof.
  revert i. induction l as [|a l' IH]; intros [|i]; simpl; try reflexivity.
  apply IH.
Qed.

(** Different samples have different quotients. *)
Lemma float_div255_eq (p q : byte) :
  (float_div255 p == float_div255 q)%Q <-> p = q.
Proof.
  split; [|intros ->; reflexivity].
  unfold float_div255, Qeq. simpl. intros H.
  rewrite <- (byte_of_to_Z p), <- (byte_of_to_Z q). f_equal. lia.
Qed.

Section MoreProperties.

Variable jpeg_save : PILImage -> Z -> option (list byte).
Variable jpeg_open : list byte -> option PILImage.

Abbreviation fwd' := (forward jpeg_save jpeg_open).


(** X4. A refusal of the codec is passed on as it is. When the encoder
    refuses the image, [forward] raises the encoder's error and the
    decoder is never called; when the encoder returns bytes and the
    decoder refuses them, [forward] raises the decoder's error. Nothing is
    caught and nothing is tried again. *)
Theorem forward_codec_refusal ctx x s b c w h d :
  shape x = [b; c; w; h] ->
  tensor_values s x = Some d ->
  (jpeg_save (image_of_values (b * c) (w * h) (map mul255 d)) 90 = None ->
   exists s',
     fwd' ctx x s = (Raise EncoderError, s')
     /\ calls s' = calls s
                   ++ [JpegSave (image_of_values (b * c) (w * h) (map mul255 d)) 90])
  /\ (forall bs,
        jpeg_save (image_of_values (b * c) (w * h) (map mul255 d)) 90 = Some bs ->
        jpeg_open bs = None ->
        exists s',
          fwd' ctx x s = (Raise DecoderError, s')
          /\ calls s' = calls s
                        ++ [JpegSave (image_of_values (b * c) (w * h) (map mul255 d)) 90;
                            JpegOpen bs]).
Proof.
  intros Hshape Hx.
  rewrite (forward_4d jpeg_save jpeg_open ctx x s b c w h d Hshape Hx). cbv zeta.
  split.
  - intros Hsave. rewrite Hsave. eexists. split; reflexivity.
  - intros bs Hsave Hopen. rewrite Hsave, Hopen.
    eexists. split; [reflexivity|]. simpl. rewrite <- app_assoc. reflexivity.
Qed.

(** X5. When the decoded image does not have as many samples as the
    input has elements, [forward] raises the shape error of [view]; it
    returns no tensor, neither padded nor cut. *)
Theorem forward_size_mismatch ctx x s b c w h d bs img' :
  shape x = [b; c; w; h] ->
  tensor_values s x = Some d ->
  jpeg_save (image_of_values (b * c) (w * h) (map mul255 d)) 90 = Some bs ->
  jpeg_open bs = Some img' ->
  length (pixels img') <> numel (shape x) ->
  exists target size s',
    fwd' ctx x s = (Raise (ViewError target size), s')
    /\ tensor_values s' x = Some d.
Proof.
  intros Hshape Hx Hsave Hopen Hne.
  rewrite (forward_4d jpeg_save jpeg_open ctx x s b c w h d Hshape Hx). cbv zeta.
  rewrite Hsave, Hopen. rewrite Hshape in Hne. unfold tensor_values in *.
  destruct (Nat.eqb (length (pixels img')) _) eqn:Hpx.
  - destruct (Nat.eqb (numel [b; c; w; h]) _) eqn:Hnum.
    + apply Nat.eqb_eq in Hpx, Hnum. contradiction Hne.
      rewrite Hnum, Hpx. unfold numel. simpl. lia.
    + eexists _, _, _. split; [reflexivity|].
      simpl. repeat apply lookup_app_l_Some. exact Hx.
  - eexists _, _, _. split; [reflexivity|].
    simpl. repeat apply lookup_app_l_Some. exact Hx.
Qed.


(** X7. A second pass adds no conversion loss of its own: run on the
    tensor a first pass returned, [forward] hands the encoder exactly the
    samples the first pass got from the decoder, in an image of the same
    rows and columns. What the second pass changes, the codec changes. *)
Theorem forward_second_pass ctx ctx2 x s d r s' :
  tensor_values s x = Some d ->
  fwd' ctx x s = (Ok r, s') ->
  exists b c w h bs img1 img2 rest,
    shape x = [b; c; w; h]
    /\ calls s' = calls s ++ [JpegSave img1 90; JpegOpen bs]
    /\ jpeg_open bs = Some img2
    /\ calls (snd (fwd' ctx2 r s'))
       = calls s' ++ JpegSave {| width := w * h; height := b * c;
                                 pixels := pixels img2 |} 90 :: rest
    /\ tensor_values s' r = Some (map float_div255 (pixels img2)).
Proof.
  intros Hx Hrun.
  destruct (forward_ok_inv jpeg_save jpeg_open ctx x s d r s' Hx Hrun)
    as (b & c & w & h & bs & img2 & Hshape & _ & Hopen & _ & _ & -> & ->).
  set (s' := {| heap := _; calls := _ |}).
  set (r := {| storage := _; shape := _ |}).
  assert (Hr : tensor_values s' r = Some (map float_div255 (pixels img2))).
  { unfold tensor_values, s', r. simpl. apply lookup_third. }
  exists b, c, w, h, bs, (image_of_values (b * c) (w * h) (map mul255 d)), img2.
  rewrite (forward_4d jpeg_save jpeg_open ctx2 r s' b c w h _ eq_refl Hr).
  cbv zeta.
  assert (Himg : image_of_values (b * c) (w * h)
                   (map mul255 (map float_div255 (pixels img2)))
                 = {| width := w * h; height := b * c; pixels := pixels img2 |})
    by (unfold image_of_values; rewrite samples_roundtrip; reflexivity).
  rewrite !Himg.
  destruct (jpeg_save _ 90) as [bs2|].
  - exists [JpegOpen bs2].
    split; [exact Hshape|]. split; [reflexivity|]. split; [exact Hopen|].
    split; [|exact Hr].
    destruct (jpeg_open bs2) as [img3|]; simpl.
    + destruct (Nat.eqb (length (pixels img3)) _); simpl.
      * destruct (Nat.eqb (numel [b; c; w; h]) _); simpl;
          rewrite <- app_assoc; reflexivity.
      * rewrite <- app_assoc. reflexivity.
    + rewrite <- app_assoc. reflexivity.
  - exists [].
    split; [exact Hshape|]. split; [reflexivity|]. split; [exact Hopen|].
    split; [reflexivity | exact Hr].
Qed.

(** X8. [forward] begins by allocating a zero tensor as large as its
    input, whatever happens next: the first storage a run adds is that
    tensor, also when the run raises. The zero tensor is never written and
    never returned: when the run ends it still holds zeros, and the tensor
    a successful run returns lives in a storage allocated after it. *)
Theorem forward_allocations ctx x s d :
  tensor_values s x = Some d ->
  heap (snd (fwd' ctx x s)) !! length (heap s)
  = Some (replicate (numel (shape x)) 0%Q)
  /\ forall r s', fwd' ctx x s = (Ok r, s') -> length (heap s) < storage r.
Proof.
  intros Hx. split.
  - destruct (shape_4d_dec (shape x)) as [(b & c & w & h & Hshape)|Hne].
    2:{ rewrite (forward_not_4d jpeg_save jpeg_open ctx x s Hne). simpl.
        apply list_lookup_middle. reflexivity. }
    rewrite (forward_4d jpeg_save jpeg_open ctx x s b c w h d Hshape Hx).
    cbv zeta. rewrite Hshape.
    assert (Hz : ((heap s ++ [replicate (numel [b; c; w; h]) 0%Q]) ++ [map mul255 d])
                 !! length (heap s)
                 = Some (replicate (numel [b; c; w; h]) 0%Q)).
    { apply lookup_app_l_Some, list_lookup_middle. reflexivity. }
    destruct (jpeg_save _ 90) as [bs|]; [|exact Hz].
    destruct (jpeg_open bs) as [img'|]; [|exact Hz].
    destruct (Nat.eqb (length (pixels img')) _); [|exact Hz].
    destruct (Nat.eqb (numel [b; c; w; h]) _); simpl;
      apply lookup_app_l_Some; exact Hz.
  - intros r s' Hrun.
    destruct (forward_ok_inv jpeg_save jpeg_open ctx x s d r s' Hx Hrun)
      as (b & c & w & h & bs & img' & _ & _ & _ & _ & _ & -> & _).
    simpl. lia.
Qed.

(** X14. What [forward] returns repeats the decoded samples. The output
    has one value per element of the input, one for each sample the
    decoder returned, and two positions hold the same value exactly when
    the decoder returned the same 8-bit sample for both. So the output
    never takes more than 256 distinct values, whatever the range of the
    input. *)
Theorem forward_output_by_sample ctx x s d r s' :
  tensor_values s x = Some d ->
  fwd' ctx x s = (Ok r, s') ->
  exists bs img' vals,
    last (calls s') = Some (JpegOpen bs)
    /\ jpeg_open bs = Some img'
    /\ tensor_values s' r = Some vals
    /\ length vals = numel (shape x)
    /\ length (pixels img') = length vals
    /\ (forall i j p q u v,
          pixels img' !! i = Some p -> pixels img' !! j = Some q ->
          vals !! i = Some u -> vals !! j = Some v ->
          (u == v)%Q <-> p = q)
    /\ (forall l : list Q,
          NoDup l -> (forall v, v ∈ l -> v ∈ vals) -> length l <= 256).
Proof.
  intros Hx Hrun.
  destruct (forward_ok_inv jpeg_save jpeg_open ctx x s d r s' Hx Hrun)
    as (b & c & w & h & bs & img' & Hshape & _ & Hopen & Hpx & Hnum & -> & ->).
  exists bs, img', (map float_div255 (pixels img')).
  split.
  { simpl. apply last_Some.
    exists (calls s ++ [JpegSave (image_of_values (b * c) (w * h) (map mul255 d)) 90]).
    rewrite <- app_assoc. reflexivity. }
  split; [exact Hopen|].
  split; [unfold tensor_values; simpl; apply lookup_third|].
  split.
  { rewrite length_map, Hshape, Hnum, Hpx. unfold numel. simpl. lia. }
  split; [rewrite length_map; reflexivity|].
  split.
  - intros i j p q u v Hp Hq Hu Hv.
    rewrite lookup_map_Some in Hu, Hv.
    rewrite Hp in Hu. rewrite Hq in Hv.
    injection Hu as <-. injection Hv as <-.
    apply float_div255_eq.
  - intros l. apply distinct_levels_bound.
Qed.


(** X16. Nothing is tried twice. In any run [forward] calls the encoder
    at most once, at quality 90, and the decoder at most once, after the
    encoder and on the bytes the encoder returned; a run that stops after
    the encoder is one whose encoder refused the image. *)
Theorem forward_calls_codec_once ctx x s d :
  tensor_values s x = Some d ->
  exists cs,
    calls (snd (fwd' ctx x s)) = calls s ++ cs
    /\ (cs = []
        \/ (exists img, cs = [JpegSave img 90] /\ jpeg_save img 90 = None)
        \/ (exists img bs, cs = [JpegSave img 90; JpegOpen bs]
                           /\ jpeg_save img 90 = Some bs)).
Proof.
  intros Hx.
  destruct (shape_4d_dec (shape x)) as [(b & c & w & h & Hshape)|Hne].
  2:{ rewrite (forward_not_4d jpeg_save jpeg_open ctx x s Hne). simpl.
      exists []. rewrite app_nil_r. split; [reflexivity | left; reflexivity]. }
  rewrite (forward_4d jpeg_save jpeg_open ctx x s b c w h d Hshape Hx). cbv zeta.
  destruct (jpeg_save _ 90) as [bs|] eqn:Hsave.
  2:{ eexists. split; [reflexivity|]. right. left.
      eexists. split; [reflexivity | exact Hsave]. }
  exists [JpegSave (image_of_values (b * c) (w * h) (map mul255 d)) 90; JpegOpen bs].
  split.
  - destruct (jpeg_open bs) as [img'|]; simpl.
    + destruct (Nat.eqb (length (pixels img')) _); simpl.
      * destruct (Nat.eqb (numel [b; c; w; h]) _); simpl;
          rewrite <- app_assoc; reflexivity.
      * rewrite <- app_assoc. reflexivity.
    + rewrite <- app_assoc. reflexivity.
  - right. right. eexists _, _. split; [reflexivity | exact Hsave].
Qed.

End MoreProperties.

(** ** The further properties on sample runs *)



Lemma forward_codec_refusal_witness :
  (exists s',
     forward SampleCodec.save SampleCodec.open ctx0 empty_batch (state_with [])
     = (Raise EncoderError, s')
     /\ calls s' = calls (state_with [])
                   ++ [JpegSave (image_of_values (0 * 1) (2 * 2) (map mul255 [])) 90])
  /\ (exists bs s',
        forward SampleCodec.save refusing_open ctx0 sample_input sample_state
        = (Raise DecoderError, s')
        /\ calls s' = calls sample_state
                      ++ [JpegSave (image_of_values (1 * 1) (2 * 2)
                                      (map mul255 sample_values)) 90;
                          JpegOpen bs]).
Proof.
  split.
  - destruct (forward_codec_refusal SampleCodec.save SampleCodec.open ctx0
                empty_batch (state_with []) 0 1 2 2 [] eq_refl eq_refl) as [H _].
    apply H. reflexivity.
  - destruct (forward_codec_refusal SampleCodec.save refusing_open ctx0
                sample_input sample_state 1 1 2 2 sample_values eq_refl eq_refl)
      as [_ H].
    eexists. apply H; [vm_compute; reflexivity | reflexivity].
Defined.

Lemma forward_size_mismatch_witness :
  exists target size s',
    forward SampleCodec.save cropping_open ctx0 sample_input sample_state
    = (Raise (ViewError target size), s')
    /\ tensor_values s' sample_input = Some sample_values.
Proof.
  eapply (forward_size_mismatch SampleCodec.save cropping_open ctx0
            sample_input sample_state 1 1 2 2 sample_values).
  - reflexivity.
  - reflexivity.
  - vm_compute. reflexivity.
  - vm_compute. reflexivity.
  - vm_compute. lia.
Defined.


Lemma forward_second_pass_witness :
  exists b c w h bs img1 img2 rest,
    shape sample_input = [b; c; w; h]
    /\ calls (snd sample_run) = calls sample_state ++ [JpegSave img1 90; JpegOpen bs]
    /\ SampleCodec.open bs = Some img2
    /\ calls (snd (forward SampleCodec.save SampleCodec.open other_ctx
                     sample_output (snd sample_run)))
       = calls (snd sample_run)
         ++ JpegSave {| width := w * h; height := b * c; pixels := pixels img2 |} 90
            :: rest
    /\ tensor_values (snd sample_run) sample_output
       = Some (map float_div255 (pixels img2)).
Proof.
  apply (forward_second_pass SampleCodec.save SampleCodec.open ctx0 other_ctx
           sample_input sample_state sample_values sample_output (snd sample_run)).
  - reflexivity.
  - vm_compute. reflexivity.
Defined.

Lemma forward_allocations_witness :
  heap (snd sample_run) !! length (heap sample_state)
  = Some (replicate (numel (shape sample_input)) 0%Q)
  /\ forall r s', sample_run = (Ok r, s') -> length (heap sample_state) < storage r.
Proof.
  apply (forward_allocations SampleCodec.save SampleCodec.open ctx0
           sample_input sample_state sample_values).
  reflexivity.
Defined.

Lemma forward_output_by_sample_witness :
  exists bs img' vals,
    last (calls (snd sample_run)) = Some (JpegOpen bs)
    /\ SampleCodec.open bs = Some img'
    /\ tensor_values (snd sample_run) sample_output = Some vals
    /\ length vals = numel (shape sample_input)
    /\ length (pixels img') = length vals
    /\ (forall i j p q u v,
          pixels img' !! i = Some p -> pixels img' !! j = Some q ->
          vals !! i = Some u -> vals !! j = Some v ->
          (u == v)%Q <-> p = q)
    /\ (forall l : list Q,
          NoDup l -> (forall v, v ∈ l -> v ∈ vals) -> length l <= 256).
Proof.
  apply (forward_output_by_sample SampleCodec.save SampleCodec.open ctx0
           sample_input sample_state sample_values).
  - reflexivity.
  - vm_compute. reflexivity.
Defined.


Lemma forward_calls_codec_once_witness :
  exists cs,
    calls (snd sample_run) = calls sample_state ++ cs
    /\ (cs = []
        \/ (exists img, cs = [JpegSave img 90] /\ SampleCodec.save img 90 = None)
        \/ (exists img bs, cs = [JpegSave img 90; JpegOpen bs]
                           /\ SampleCodec.save img 90 = Some bs)).
Proof.
  apply (forward_calls_codec_once SampleCodec.save SampleCodec.open ctx0
           sample_input sample_state sample_values).
  reflexivity.
Defined.

(* ================================================================== *)
(** * Properties of the network *)

From Stdlib Require Import ZifyNat.

(** ** Running layers *)

Lemma tensor_values_fresh (hp : list (list Q)) cs (d : list Q) shp :
  tensor_values {| heap := hp ++ [d]; calls := cs |}
                {| storage := length hp; shape := shp |} = Some d.
Proof. unfold tensor_values. simpl. apply list_lookup_middle. reflexivity. Qed.

Lemma nbind_tensor_op {B} (f : LayerFn) (k : Tensor -> NM B) x s d shp d' :
  tensor_values s x = Some d ->
  f (shape x) d = inr (shp, d') ->
  nbind (tensor_op f x) k s
  = k {| storage := length (heap s); shape := shp |}
      {| heap := heap s ++ [d']; calls := calls s |}.
Proof.
  intros Hx Hf. unfold nbind, tensor_op. unfold tensor_values in Hx.
  rewrite Hx, Hf. reflexivity.
Qed.

Lemma nbind_ok_inv {A B} (m : NM A) (k : A -> NM B) s b s' :
  nbind m k s = (NetOk b, s') ->
  exists a s1, m s = (NetOk a, s1) /\ k a s1 = (NetOk b, s').
Proof.
  unfold nbind. destruct (m s) as [[a|e] s1]; [|discriminate].
  intros H. exists a, s1. split; [reflexivity | exact H].
Qed.

Lemma tensor_op_inv (f : LayerFn) x s y s1 :
  tensor_op f x s = (NetOk y, s1) ->
  exists d shp d',
    tensor_values s x = Some d
    /\ f (shape x) d = inr (shp, d')
    /\ y = {| storage := length (heap s); shape := shp |}
    /\ s1 = {| heap := heap s ++ [d']; calls := calls s |}.
Proof.
  unfold tensor_op, tensor_values.
  destruct (heap s !! storage x) as [d|]; [|discriminate].
  destruct (f (shape x) d) as [e|[shp d']] eqn:Hf; [discriminate|].
  intros H. injection H as <- <-. exists d, shp, d'. repeat split. exact Hf.
Qed.

Lemma keeps_calls_nret {A} (a : A) : keeps_calls (nret a).
Proof. intros s. reflexivity. Qed.

Lemma keeps_calls_tensor_op (f : LayerFn) x : keeps_calls (tensor_op f x).
Proof.
  intros s. unfold tensor_op.
  destruct (heap s !! storage x) as [d|]; [|reflexivity].
  destruct (f (shape x) d) as [e|[shp d']]; reflexivity.
Qed.

Lemma keeps_calls_nbind {A B} (m : NM A) (k : A -> NM B) :
  keeps_calls m -> (forall a, keeps_calls (k a)) -> keeps_calls (nbind m k).
Proof.
  intros Hm Hk s. unfold nbind. specialize (Hm s).
  destruct (m s) as [[a|e] s1]; simpl in *.
  - rewrite (Hk a s1). exact Hm.
  - exact Hm.
Qed.

(** ** Values that are not negative *)

Lemma relu_nonneg (d : list Q) : Forall nonneg (map (Qmax 0) d).
Proof.
  apply Forall_map, Forall_forall. intros v _. apply Q.le_max_l.
Qed.

Lemma foldl_max_nonneg (l : list Q) (v : Q) :
  nonneg v -> nonneg (foldl Qmax v l).
Proof.
  revert v. induction l as [|a l' IH]; intros v Hv; simpl; [exact Hv|].
  apply IH. unfold nonneg in *. apply Qle_trans with v; [exact Hv|].
  apply Q.le_max_l.
Qed.

Lemma max_of_nonneg (l : list Q) : Forall nonneg l -> nonneg (max_of l).
Proof.
  intros Hl. destruct l as [|v vs]; simpl.
  - unfold nonneg. apply Qle_refl.
  - apply foldl_max_nonneg. inversion Hl. assumption.
Qed.

Lemma rows_of_length (rows cols : nat) (d : list Q) :
  length (rows_of rows cols d) = rows.
Proof.
  revert d. induction rows as [|r IH]; intros d; simpl; [reflexivity|].
  rewrite IH. reflexivity.
Qed.

Lemma rows_of_In (rows cols : nat) (d row : list Q) (v : Q) :
  In row (rows_of rows cols d) -> In v row -> In v d.
Proof.
  revert d. induction rows as [|r IH]; intros d Hrow Hv; simpl in Hrow.
  - contradiction.
  - destruct Hrow as [<-|Hrow].
    + apply list_elem_of_In. apply list_elem_of_In in Hv.
      apply (subseteq_take cols d v Hv).
    + apply IH in Hrow; [|exact Hv].
      apply list_elem_of_In. apply list_elem_of_In in Hrow.
      apply (subseteq_drop cols d v Hrow).
Qed.

Lemma pool_band_nonneg (k ow : nat) (rows : list (list Q)) :
  (forall row v, In row rows -> In v row -> nonneg v) ->
  Forall nonneg (pool_band k ow rows).
Proof.
  intros Hrows. unfold pool_band. apply Forall_map, Forall_forall.
  intros j _. apply max_of_nonneg, Forall_forall. intros v Hv.
  apply list_elem_of_In, in_flat_map in Hv. destruct Hv as (row & Hrow & Hv).
  apply (Hrows row v Hrow).
  apply list_elem_of_In. apply list_elem_of_In in Hv.
  apply subseteq_take in Hv. apply (subseteq_drop _ _ _ Hv).
Qed.

Lemma max_pool2d_nonneg (k n c h w : nat) (d : list Q) :
  Forall nonneg d -> Forall nonneg (max_pool2d_values k n c h w d).
Proof.
  intros Hd. unfold max_pool2d_values. apply Forall_forall. intros v Hv.
  apply list_elem_of_In, in_flat_map in Hv. destruct Hv as (plane & Hplane & Hv).
  apply in_flat_map in Hv. destruct Hv as (band & Hband & Hv).
  assert (Hall : Forall nonneg (pool_band k (out_size w k k) (rows_of k w band))).
  { apply pool_band_nonneg. intros row u Hrow Hu.
    apply (proj1 (Forall_forall _ _) Hd), list_elem_of_In.
    apply (rows_of_In _ _ _ plane u Hplane).
    apply (rows_of_In _ _ _ band u Hband).
    apply (rows_of_In _ _ _ row u Hrow). exact Hu. }
  apply (proj1 (Forall_forall _ _) Hall), list_elem_of_In. exact Hv.
Qed.

Lemma max_pool2d_length (k n c h w : nat) (d : list Q) :
  length (max_pool2d_values k n c h w d)
  = n * c * (out_size h k k * out_size w k k).
Proof.
  unfold max_pool2d_values.
  rewrite (flat_map_constant_length (c := out_size h k k * out_size w k k)).
  - rewrite rows_of_length. reflexivity.
  - intros plane _.
    rewrite (flat_map_constant_length (c := out_size w k k)).
    + rewrite rows_of_length. reflexivity.
    + intros band _. unfold pool_band. rewrite length_map, length_seq. reflexivity.
Qed.

Lemma dropout_nonneg (p : Q) (t : bool) (mask : list bool) shp (d : list Q) :
  (0 <= 1 / (1 - p))%Q ->
  Forall nonneg d ->
  Forall nonneg (dropout2d_values p t mask shp d).
Proof.
  intros Hp Hd. unfold dropout2d_values. destruct t; [|exact Hd].
  apply Forall_forall. intros v Hv.
  apply elem_of_lookup_imap in Hv.
  destruct Hv as (i & y & -> & Hy).
  destruct (nth _ mask false).
  - apply Qmult_le_0_compat; [|exact Hp].
    apply (proj1 (Forall_forall _ _) Hd).
    apply list_elem_of_lookup. exists i. exact Hy.
  - apply Qle_refl.
Qed.

Lemma dropout_scale_nonneg (t : bool) : (0 <= 1 / (1 - dropout (Net_init t)))%Q.
Proof. destruct t; vm_compute; discriminate. Qed.

Lemma dropout_length p t mask shp d :
  length (dropout2d_values p t mask shp d) = length d.
Proof. unfold dropout2d_values. destruct t; [apply length_imap | reflexivity]. Qed.

Ltac layer_step :=
  erewrite nbind_tensor_op;
  [ | first [eassumption | apply tensor_values_fresh] | cbn; reflexivity ];
  cbn [heap calls shape storage].

Lemma forward_4d_calls (jpeg_save : PILImage -> Z -> option (list byte))
    (jpeg_open : list byte -> option PILImage) ctx x s b c w h d :
  shape x = [b; c; w; h] ->
  tensor_values s x = Some d ->
  exists rest,
    calls (snd (forward jpeg_save jpeg_open ctx x s))
    = calls s ++ JpegSave (image_of_values (b * c) (w * h) (map mul255 d)) 90 :: rest
    /\ (rest = [] \/ exists bs, rest = [JpegOpen bs]).
Proof.
  intros Hshape Hx.
  rewrite (forward_4d jpeg_save jpeg_open ctx x s b c w h d Hshape Hx). cbv zeta.
  destruct (jpeg_save _ 90%Z) as [bs|];
    [|exists []; split; [reflexivity | left; reflexivity]].
  exists [JpegOpen bs]. split; [|right; exists bs; reflexivity].
  destruct (jpeg_open bs) as [img'|]; simpl.
  - destruct (Nat.eqb (length (pixels img')) _); simpl.
    + destruct (Nat.eqb (numel [b; c; w; h]) _); simpl;
        rewrite <- app_assoc; reflexivity.
    + rewrite <- app_assoc. reflexivity.
  - rewrite <- app_assoc. reflexivity.
Qed.

Lemma max_pool2d_fn_inv k shp d shp' d' :
  max_pool2d_fn k shp d = inr (shp', d') ->
  exists n c h w,
    shp = [n; c; h; w] /\ k <= h /\ k <= w
    /\ shp' = [n; c; out_size h k k; out_size w k k].
Proof.
  unfold max_pool2d_fn.
  destruct shp as [|n [|c [|h [|w [|? ?]]]]]; try discriminate.
  destruct (Nat.leb k h) eqn:Hh; [|discriminate].
  destruct (Nat.leb k w) eqn:Hw; [|discriminate].
  simpl. intros H. injection H as <- _.
  apply Nat.leb_le in Hh, Hw. exists n, c, h, w. repeat split; assumption.
Qed.

Lemma flatten1_fn_inv shp d shp' d' :
  flatten1_fn shp d = inr (shp', d') ->
  exists n rest, shp = n :: rest /\ shp' = [n; numel rest].
Proof.
  unfold flatten1_fn.
  destruct shp as [|n [|m rest]]; try discriminate.
  intros H. injection H as <- _. exists n, (m :: rest). split; reflexivity.
Qed.

Section NetworkProperties.

Variable jpeg_save : PILImage -> Z -> option (list byte).
Variable jpeg_open : list byte -> option PILImage.
Variable kernel : KernelOf -> list nat -> list Q -> list Q.
Variable masks : nat -> list bool.

Abbreviation net_fwd := (Net_forward jpeg_save jpeg_open kernel masks).

Lemma Net_front t x s n d :
  shape x = [n; 1; 28; 28] ->
  tensor_values s x = Some d ->
  exists x6 s6 vals k,
    net_fwd (Net_init t) x s = nbind (BottleneckUnit_apply jpeg_save jpeg_open x6) k s6
    /\ shape x6 = [n; 64; 12; 12]
    /\ tensor_values s6 x6 = Some vals
    /\ length vals = n * 64 * (12 * 12)
    /\ Forall nonneg vals
    /\ calls s6 = calls s
    /\ (forall y, keeps_calls (k y))
    /\ (forall y sy dy,
          shape y = [n; 64; 12; 12] ->
          tensor_values sy y = Some dy ->
          exists out s', k y sy = (NetOk out, s') /\ shape out = [n; 10]).
Proof.
  intros Hshape Hx. unfold Net_forward.
  erewrite nbind_tensor_op; [|exact Hx|rewrite Hshape; cbn; reflexivity].
  cbn [heap calls shape storage].
  do 5 layer_step.
  eexists _, _, _, _. split; [reflexivity|].
  split; [reflexivity|]. split; [apply tensor_values_fresh|].
  split; [|split; [|split; [|split]]].
  - rewrite dropout_length, max_pool2d_length. reflexivity.
  - apply dropout_nonneg; [apply (dropout_scale_nonneg t)|].
    apply max_pool2d_nonneg, relu_nonneg.
  - reflexivity.
  - intros y.
    repeat (apply keeps_calls_nbind; [apply keeps_calls_tensor_op | intros ?]).
    apply keeps_calls_nret.
  - intros y sy dy Hy Hdy.
    erewrite nbind_tensor_op; [|exact Hdy|rewrite Hy; cbn; reflexivity].
    cbn [heap calls shape storage].
    do 3 layer_step.
    erewrite nbind_tensor_op;
      [ | apply tensor_values_fresh
        | unfold linear_fn; cbn [fc1 Net_init in_features out_features];
          change (Nat.eqb (numel [64; 10; 10]) 6400) with true; reflexivity ].
    cbn [heap calls shape storage].
    do 4 layer_step.
    eexists _, _. split; reflexivity.
Qed.

Lemma conv2d_fn_inv l shp d shp' d' :
  conv2d_fn kernel l shp d = inr (shp', d') ->
  exists n h w,
    shp = [n; in_channels l; h; w]
    /\ kernel_size l <= h /\ kernel_size l <= w
    /\ shp' = [n; out_channels l;
               out_size h (kernel_size l) (stride l);
               out_size w (kernel_size l) (stride l)].
Proof.
  unfold conv2d_fn, conv2d_shape.
  destruct shp as [|n [|c [|h [|w [|? ?]]]]]; try discriminate.
  destruct (Nat.eqb c (in_channels l)) eqn:Hc; [|discriminate].
  destruct (Nat.leb (kernel_size l) h) eqn:Hh; [|discriminate].
  destruct (Nat.leb (kernel_size l) w) eqn:Hw; [|discriminate].
  simpl. intros H. injection H as <- _.
  apply Nat.eqb_eq in Hc. apply Nat.leb_le in Hh, Hw. subst c.
  exists n, h, w. repeat split; assumption.
Qed.

Lemma linear_fn_inv l shp d shp' d' :
  linear_fn kernel l shp d = inr (shp', d') ->
  exists n, shp = [n; in_features l] /\ shp' = [n; out_features l].
Proof.
  unfold linear_fn.
  destruct shp as [|n [|f [|? ?]]]; try discriminate.
  destruct (Nat.eqb f (in_features l)) eqn:Hf; [|discriminate].
  intros H. injection H as <- _. apply Nat.eqb_eq in Hf. subst f.
  exists n. split; reflexivity.
Qed.

Lemma log_softmax1_fn_inv shp d shp' d' :
  log_softmax1_fn kernel shp d = inr (shp', d') -> shp' = shp.
Proof.
  unfold log_softmax1_fn.
  destruct shp as [|n [|m rest]]; try discriminate.
  intros H. injection H as <- _. reflexivity.
Qed.

Lemma BottleneckUnit_apply_inv x s r s1 :
  BottleneckUnit_apply jpeg_save jpeg_open x s = (NetOk r, s1) ->
  forward jpeg_save jpeg_open ctx0 x s = (Ok r, s1).
Proof.
  unfold BottleneckUnit_apply.
  destruct (forward jpeg_save jpeg_open ctx0 x s) as [[r'|e] s']; [|discriminate].
  intros H. injection H as <- <-. reflexivity.
Qed.

(** X9. [Net.forward] returns only on a batch of one-channel images of
    height [h] and width [w] with ((h-4)/2 - 2) * ((w-4)/2 - 2) = 100, as
    28 by 28 is: the three convolutions and the pooling must leave the
    6400 features the first linear layer takes. What it returns has one
    row of 10 values per image. *)
Theorem Net_forward_accepts t x s out s' :
  net_fwd (Net_init t) x s = (NetOk out, s') ->
  exists n h w,
    shape x = [n; 1; h; w]
    /\ ((h - 4) / 2 - 2) * ((w - 4) / 2 - 2) = 100
    /\ shape out = [n; 10].
Proof.
  intros H. unfold Net_forward in H.
  cbn [conv1 conv2 conv3 fc1 fc2 dropout training Net_init] in H.
  (* conv1, relu, conv2, relu, max_pool2d, dropout *)
  apply nbind_ok_inv in H. destruct H as (x1 & s1 & E1 & H).
  apply tensor_op_inv in E1. destruct E1 as (d0 & shp1 & d1 & _ & F1 & -> & ->).
  apply conv2d_fn_inv in F1. destruct F1 as (n & h & w & Hx & Hh1 & Hw1 & ->).
  cbn [in_channels out_channels kernel_size stride] in *.
  apply nbind_ok_inv in H. destruct H as (x2 & s2 & E2 & H).
  apply tensor_op_inv in E2. destruct E2 as (? & shp2 & d2 & _ & F2 & -> & ->).
  injection F2 as <- _. cbn [shape] in H.
  apply nbind_ok_inv in H. destruct H as (x3 & s3 & E3 & H).
  apply tensor_op_inv in E3. destruct E3 as (? & shp3 & d3 & _ & F3 & -> & ->).
  apply conv2d_fn_inv in F3. destruct F3 as (n' & h' & w' & Hx3 & Hh3 & Hw3 & ->).
  cbn [in_channels out_channels kernel_size stride shape] in *.
  injection Hx3 as <- <- <-.
  apply nbind_ok_inv in H. destruct H as (x4 & s4 & E4 & H).
  apply tensor_op_inv in E4. destruct E4 as (? & shp4 & d4 & _ & F4 & -> & ->).
  injection F4 as <- _. cbn [shape] in H.
  apply nbind_ok_inv in H. destruct H as (x5 & s5 & E5 & H).
  apply tensor_op_inv in E5. destruct E5 as (? & shp5 & d5 & _ & F5 & -> & ->).
  apply max_pool2d_fn_inv in F5.
  destruct F5 as (n5 & c5 & h5 & w5 & Hx5 & Hh5 & Hw5 & ->).
  cbn [shape] in Hx5. injection Hx5 as <- <- <- <-.
  apply nbind_ok_inv in H. destruct H as (x6 & s6 & E6 & H).
  apply tensor_op_inv in E6. destruct E6 as (? & shp6 & d6 & _ & F6 & -> & ->).
  injection F6 as <- _. cbn [shape heap calls] in H.
  (* the bottleneck *)
  apply nbind_ok_inv in H. destruct H as (x7 & s7 & E7 & H).
  apply BottleneckUnit_apply_inv in E7.
  destruct (forward_ok_values jpeg_save jpeg_open ctx0 _ _ _ x7 s7
              (tensor_values_fresh _ _ _ _) E7) as (img' & _ & _ & Hs7).
  cbn [shape] in Hs7.
  (* conv3, relu, dropout, flatten, fc1, relu, dropout, fc2, log_softmax *)
  apply nbind_ok_inv in H. destruct H as (x8 & s8 & E8 & H).
  apply tensor_op_inv in E8. destruct E8 as (? & shp8 & d8 & _ & F8 & -> & ->).
  rewrite Hs7 in F8.
  apply conv2d_fn_inv in F8. destruct F8 as (n8 & h8 & w8 & Hx8 & Hh8 & Hw8 & ->).
  cbn [in_channels out_channels kernel_size stride shape] in *.
  injection Hx8 as <- <- <-.
  apply nbind_ok_inv in H. destruct H as (x9 & s9 & E9 & H).
  apply tensor_op_inv in E9. destruct E9 as (? & shp9 & d9 & _ & F9 & -> & ->).
  injection F9 as <- _. cbn [shape] in H.
  apply nbind_ok_inv in H. destruct H as (x10 & s10 & E10 & H).
  apply tensor_op_inv in E10. destruct E10 as (? & shp10 & d10 & _ & F10 & -> & ->).
  injection F10 as <- _. cbn [shape] in H.
  apply nbind_ok_inv in H. destruct H as (x11 & s11 & E11 & H).
  apply tensor_op_inv in E11. destruct E11 as (? & shp11 & d11 & _ & F11 & -> & ->).
  apply flatten1_fn_inv in F11. destruct F11 as (n11 & rest & Hx11 & ->).
  cbn [shape] in Hx11. injection Hx11 as <- <-.
  apply nbind_ok_inv in H. destruct H as (x12 & s12 & E12 & H).
  apply tensor_op_inv in E12. destruct E12 as (? & shp12 & d12 & _ & F12 & -> & ->).
  apply linear_fn_inv in F12. destruct F12 as (n12 & Hx12 & ->).
  cbn [shape in_features out_features] in *. injection Hx12 as <- Hfeat.
  apply nbind_ok_inv in H. destruct H as (x13 & s13 & E13 & H).
  apply tensor_op_inv in E13. destruct E13 as (? & shp13 & d13 & _ & F13 & -> & ->).
  injection F13 as <- _. cbn [shape] in H.
  apply nbind_ok_inv in H. destruct H as (x14 & s14 & E14 & H).
  apply tensor_op_inv in E14. destruct E14 as (? & shp14 & d14 & _ & F14 & -> & ->).
  injection F14 as <- _. cbn [shape] in H.
  apply nbind_ok_inv in H. destruct H as (x15 & s15 & E15 & H).
  apply tensor_op_inv in E15. destruct E15 as (? & shp15 & d15 & _ & F15 & -> & ->).
  apply linear_fn_inv in F15. destruct F15 as (n15 & Hx15 & ->).
  cbn [shape in_features out_features] in *. injection Hx15 as <-.
  apply nbind_ok_inv in H. destruct H as (x16 & s16 & E16 & H).
  apply tensor_op_inv in E16. destruct E16 as (? & shp16 & d16 & _ & F16 & -> & ->).
  apply log_softmax1_fn_inv in F16. subst shp16. cbn [shape] in H.
  unfold nret in H. injection H as <- _.
  exists n, h, w. split; [exact Hx|]. split; [|reflexivity].
  match type of Hfeat with
  | _ = ?r => replace r with (64 * 100) in Hfeat by (vm_compute; reflexivity)
  end.
  unfold numel in Hfeat. cbn [foldr] in Hfeat.
  unfold out_size in *.
  rewrite !Nat.div_1_r in *.
  replace (((h - 3 + 1 - 3 + 1 - 2) / 2 + 1 - 3 + 1)) with ((h - 4) / 2 - 2)
    in Hfeat by lia.
  replace (((w - 3 + 1 - 3 + 1 - 2) / 2 + 1 - 3 + 1)) with ((w - 4) / 2 - 2)
    in Hfeat by lia.
  revert Hfeat.
  generalize ((h - 4) / 2 - 2), ((w - 4) / 2 - 2). intros a b Hab. lia.
Qed.

(** X10. On a batch of one-channel 28x28 images no layer of
    [Net.forward] rejects its input: the pass returns one row of 10 values
    per image, unless the bottleneck raises. *)
Theorem Net_forward_digits t x s n d :
  shape x = [n; 1; 28; 28] ->
  tensor_values s x = Some d ->
  (exists out s', net_fwd (Net_init t) x s = (NetOk out, s') /\ shape out = [n; 10])
  \/ (exists e s', net_fwd (Net_init t) x s = (NetRaise (BottleneckRaised e), s')).
Proof.
  intros Hshape Hx.
  destruct (Net_front t x s n d Hshape Hx)
    as (x6 & s6 & vals & k & -> & Hs6 & Hv6 & _ & _ & _ & _ & Hk).
  unfold nbind, BottleneckUnit_apply.
  destruct (forward jpeg_save jpeg_open ctx0 x6 s6) as [[r|e] s7] eqn:Hrun.
  - left.
    destruct (forward_ok_values jpeg_save jpeg_open ctx0 x6 s6 vals r s7 Hv6 Hrun)
      as (img' & Hr & _ & Hsr).
    rewrite Hs6 in Hsr. apply (Hk r s7 _ Hsr Hr).
  - right. eexists _, _. reflexivity.
Qed.

(** X11. In a forward pass over a batch of [n] one-channel 28x28
    images the codec is called by the bottleneck alone: once to encode,
    at quality 90, an image of 64*n rows and 144 columns, and at most
    once to decode. Every sample of that image comes from a value that
    is not negative, as [relu], the pooling and the dropout leave it. *)
Theorem Net_bottleneck_image t x s n d :
  shape x = [n; 1; 28; 28] ->
  tensor_values s x = Some d ->
  exists vals img rest,
    calls (snd (net_fwd (Net_init t) x s)) = calls s ++ JpegSave img 90 :: rest
    /\ height img = n * 64
    /\ width img = 144
    /\ length (pixels img) = height img * width img
    /\ pixels img = map mul255_byte vals
    /\ Forall nonneg vals
    /\ (rest = [] \/ exists bs, rest = [JpegOpen bs]).
Proof.
  intros Hshape Hx.
  destruct (Net_front t x s n d Hshape Hx)
    as (x6 & s6 & vals & k & -> & Hs6 & Hv6 & Hlen & Hnn & Hc6 & Hkc & _).
  exists vals, (image_of_values (n * 64) (12 * 12) (map mul255 vals)).
  assert (Hcalls : calls (snd (nbind (BottleneckUnit_apply jpeg_save jpeg_open x6) k s6))
                   = calls (snd (forward jpeg_save jpeg_open ctx0 x6 s6))).
  { unfold nbind, BottleneckUnit_apply.
    destruct (forward jpeg_save jpeg_open ctx0 x6 s6) as [[r|e] s7]; simpl.
    - apply Hkc.
    - reflexivity. }
  rewrite Hcalls.
  destruct (forward_4d_calls jpeg_save jpeg_open ctx0 x6 s6 n 64 12 12 vals Hs6 Hv6)
    as (rest & Hrest & Hopen).
  exists rest. rewrite Hrest, Hc6.
  split; [reflexivity|]. split; [reflexivity|]. split; [reflexivity|].
  split; [|split; [|split; [exact Hnn | exact Hopen]]].
  - simpl. rewrite !length_map, Hlen. reflexivity.
  - simpl. rewrite map_map. reflexivity.
Qed.


End NetworkProperties.

(** ** The properties of the network on a sample run *)

Lemma Net_forward_accepts_witness :
  exists n h w,
    shape digit_input = [n; 1; h; w]
    /\ ((h - 4) / 2 - 2) * ((w - 4) / 2 - 2) = 100
    /\ shape digit_output = [n; 10].
Proof.
  apply (Net_forward_accepts SampleCodec.save SampleCodec.open half_kernel
           alternating_masks true digit_input digit_state
           digit_output (snd digit_run)).
  assert (H : fst digit_run = NetOk digit_output) by (vm_compute; reflexivity).
  revert H. generalize digit_run. intros [o st] H. simpl in H.
  rewrite H. reflexivity.
Defined.

Lemma Net_forward_digits_witness :
  (exists out s', digit_run = (NetOk out, s') /\ shape out = [1; 10])
  \/ (exists e s', digit_run = (NetRaise (BottleneckRaised e), s')).
Proof.
  apply (Net_forward_digits SampleCodec.save SampleCodec.open half_kernel
           alternating_masks true digit_input digit_state 1
           (replicate 784 (1 # 4))); reflexivity.
Defined.

Lemma Net_bottleneck_image_witness :
  exists vals img rest,
    calls (snd digit_run) = calls digit_state ++ JpegSave img 90 :: rest
    /\ height img = 1 * 64
    /\ width img = 144
    /\ length (pixels img) = height img * width img
    /\ pixels img = map mul255_byte vals
    /\ Forall nonneg vals
    /\ (rest = [] \/ exists bs, rest = [JpegOpen bs]).
Proof.
  apply (Net_bottleneck_image SampleCodec.save SampleCodec.open half_kernel
           alternating_masks true digit_input digit_state 1
           (replicate 784 (1 # 4))); reflexivity.
Defined.

(* ================================================================== *)
(** * Properties of the training loop *)

Lemma printing_indices_length (n : nat) :
  length (printing_indices n) = (n + 29) / 30.
Proof.
  unfold printing_indices. induction n as [|n IH]; [reflexivity|].
  rewrite seq_S, filter_app, length_app, IH, Nat.add_0_l.
  rewrite (filter_singleton _ n []).
  destruct (decide (n mod 30 = 0)) as [Hm|Hm]; simpl length; lia.
Qed.

Lemma sum_list_map_app {B} (len : B -> nat) (l1 l2 : list B) :
  sum_list (map len (l1 ++ l2)) = sum_list (map len l1) + sum_list (map len l2).
Proof.
  induction l1 as [|b l1 IH]; simpl; [reflexivity|]. rewrite IH. lia.
Qed.

Lemma seen_before_full {B} (len : B -> nat) (size : nat) (loader : list B) (i : nat) :
  full_then_short len size loader ->
  i < length loader ->
  seen_before len loader i = i * size.
Proof.
  intros Hfull. unfold seen_before. induction i as [|i IH]; intros Hi.
  - reflexivity.
  - destruct (lookup_lt_is_Some_2 loader i ltac:(lia)) as [data Hdata].
    rewrite (take_S_r _ _ _ Hdata), sum_list_map_app, IH by lia.
    destruct (Hfull i data Hdata) as [_ Hsize].
    simpl. rewrite (Hsize Hi). lia.
Qed.

Lemma seen_before_total {B} (len : B -> nat) (loader : list B) (i : nat) data :
  loader !! i = Some data ->
  seen_before len loader i + len data <= sum_list (map len loader).
Proof.
  intros Hdata. unfold seen_before.
  rewrite <- (take_drop_middle loader i data Hdata) at 2.
  rewrite sum_list_map_app. simpl. lia.
Qed.

Lemma full_then_short_replicate (size r m : nat) :
  r <= size -> full_then_short id size (replicate m size ++ [r]).
Proof.
  intros Hr i data Hi. rewrite length_app, length_replicate. simpl.
  apply lookup_app_Some in Hi. destruct Hi as [Hi|[Hge Hi]].
  - apply lookup_replicate in Hi. destruct Hi as [-> _]. unfold id. lia.
  - rewrite length_replicate in *.
    destruct (i - m) as [|k] eqn:E; [|destruct k; discriminate].
    injection Hi as <-. unfold id. split; [exact Hr | lia].
Qed.

Section TrainProperties.

Context {W B : Type}.
Variable len : B -> nat.
Variable fit : W -> B -> W * Q.

Lemma train_from_lines epoch (loader : DataLoader B) start remaining w :
  Forall2 (fun i l =>
             start <= i
             /\ exists data,
                  remaining !! (i - start) = Some data
                  /\ line_epoch l = epoch
                  /\ line_seen l = i * len data
                  /\ line_total l = dataset_len loader
                  /\ line_percent l
                     = (inject_Z (100 * Z.of_nat i)
                        / inject_Z (Z.of_nat (length (batches loader))))%Q)
    (filter (fun i => i mod 30 = 0) (seq start (length remaining)))
    (snd (train_from len fit epoch loader start remaining w)).
Proof.
  revert start w. induction remaining as [|data rest IH]; intros start w.
  - constructor.
  - cbn [train_from length seq].
    destruct (fit w data) as [w1 loss].
    specialize (IH (S start) w1).
    destruct (train_from len fit epoch loader (S start) rest w1) as [w2 lines].
    cbn [snd] in *.
    assert (Hrest :
      Forall2 (fun i l =>
                 start <= i
                 /\ exists d,
                      (data :: rest) !! (i - start) = Some d
                      /\ line_epoch l = epoch
                      /\ line_seen l = i * len d
                      /\ line_total l = dataset_len loader
                      /\ line_percent l
                         = (inject_Z (100 * Z.of_nat i)
                            / inject_Z (Z.of_nat (length (batches loader))))%Q)
        (filter (fun i => i mod 30 = 0) (seq (S start) (length rest))) lines).
    { eapply Forall2_impl; [exact IH|].
      intros i l (Hi & d & Hd & Hl). split; [lia|].
      exists d. split; [|exact Hl].
      replace (i - start) with (S (i - S start)) by lia. exact Hd. }
    rewrite filter_cons.
    destruct (decide (start mod 30 = 0)) as [Hm|Hm].
    + rewrite Hm. cbn [Nat.eqb app]. constructor; [|exact Hrest].
      split; [lia|]. exists data. rewrite Nat.sub_diag. repeat split.
    + destruct (Nat.eqb_spec (start mod 30) 0) as [E|_]; [contradiction|].
      exact Hrest.
Qed.

(** X12. [train] prints a progress line at the batch indices 0, 30,
    60, ... below the number of batches and at no other: one line for
    every thirty batches begun. The line at batch index [i] shows
    [i * len(data)] samples, the length of the loader's dataset and 100*i
    over the number of batches as the percentage. *)
Theorem train_prints_every_30 (w : W) (loader : DataLoader B) (epoch : nat) :
  Forall2 (progress_line_of len epoch loader)
    (printing_indices (length (batches loader)))
    (snd (train len fit w loader epoch))
  /\ length (snd (train len fit w loader epoch))
     = (length (batches loader) + 29) / 30.
Proof.
  assert (H : Forall2 (progress_line_of len epoch loader)
                (printing_indices (length (batches loader)))
                (snd (train len fit w loader epoch))).
  { unfold train, printing_indices.
    eapply Forall2_impl; [apply train_from_lines|].
    intros i l (_ & d & Hd & Hl). exists d.
    rewrite Nat.sub_0_r in Hd. split; [exact Hd | exact Hl]. }
  split; [exact H|].
  rewrite <- (Forall2_length _ _ _ H). apply printing_indices_length.
Qed.

(** X13. With full batches and at most a shorter one at the end, the
    count a progress line shows never exceeds the number of samples in
    the batches before the one just trained on. It equals that number
    when the batch is full, and falls below it when the line is printed
    for a short last batch that is not the first batch. The batch just
    trained on is never counted: when the batches are drawn from the
    dataset, the count stays below the length of the dataset by at least
    the size of that batch. *)
Theorem train_seen_count (size : nat) (w : W) (loader : DataLoader B)
    (epoch : nat) :
  full_then_short len size (batches loader) ->
  drawn_from_dataset len loader ->
  Forall (fun l =>
            exists i data,
              batches loader !! i = Some data
              /\ line_seen l = i * len data
              /\ line_seen l <= seen_before len (batches loader) i
              /\ (len data = size ->
                  line_seen l = seen_before len (batches loader) i)
              /\ (len data < size -> 0 < i ->
                  line_seen l < seen_before len (batches loader) i)
              /\ line_seen l + len data <= line_total l)
    (snd (train len fit w loader epoch)).
Proof.
  intros Hfull Hdrawn.
  pose proof (train_from_lines epoch loader 0 (batches loader) w) as H.
  fold (train len fit w loader epoch) in H.
  eapply Forall2_Forall_r; [exact H|]. clear H.
  apply Forall_forall. intros i _ l (_ & data & Hd & _ & Hseen & Htot & _).
  rewrite Nat.sub_0_r in Hd. exists i, data.
  pose proof (lookup_lt_Some _ _ _ Hd) as Hi.
  pose proof (seen_before_full len size (batches loader) i Hfull Hi) as Hbefore.
  pose proof (seen_before_total len (batches loader) i data Hd) as Htotal.
  destruct (Hfull i data Hd) as [Hle _].
  unfold drawn_from_dataset in Hdrawn.
  split; [exact Hd|]. split; [exact Hseen|].
  rewrite Hseen, Hbefore, Htot.
  split; [|split; [|split]].
  - apply Nat.mul_le_mono_l. exact Hle.
  - intros ->. reflexivity.
  - intros Hshort Hpos. apply Nat.mul_lt_mono_pos_l; assumption.
  - rewrite Hbefore in Htotal. nia.
Qed.

End TrainProperties.


(** ** The training loop on sample loaders *)

Lemma train_seen_count_witness :
  Forall (fun l =>
            exists i data,
              batches short_tail_loader !! i = Some data
              /\ line_seen l = i * id data
              /\ line_seen l <= seen_before id (batches short_tail_loader) i
              /\ (id data = 4 ->
                  line_seen l = seen_before id (batches short_tail_loader) i)
              /\ (id data < 4 -> 0 < i ->
                  line_seen l < seen_before id (batches short_tail_loader) i)
              /\ line_seen l + id data <= line_total l)
    (snd (train id counting_fit 0 short_tail_loader 1)).
Proof.
  apply (train_seen_count id counting_fit 4 0 short_tail_loader 1).
  - apply full_then_short_replicate. lia.
  - unfold drawn_from_dataset. simpl. lia.
Defined.

(** The short last batch of the sample loader is printed: its line shows
    90 samples where 120 came before it. *)
Example short_tail_undercount :
  map line_seen (snd (train id counting_fit 0 short_tail_loader 1)) = [0; 90]
  /\ seen_before id (batches short_tail_loader) 30 = 120.
Proof. split; vm_compute; reflexivity. Qed.

(** On the loader of the notebook the loop prints the sixteen lines of the
    recorded first epoch, with their counts and percentages. *)
Example mnist_progress :
  map (fun l => (Z.of_nat (line_seen l), Z.of_nat (line_total l), rounded (line_percent l)))
      (snd (train id counting_fit 0 mnist_loader 1))
  = [(0, 60000, 0); (3840, 60000, 6); (7680, 60000, 13); (11520, 60000, 19);
     (15360, 60000, 26); (19200, 60000, 32); (23040, 60000, 38);
     (26880, 60000, 45); (30720, 60000, 51); (34560, 60000, 58);
     (38400, 60000, 64); (42240, 60000, 70); (46080, 60000, 77);
     (49920, 60000, 83); (53760, 60000, 90); (57600, 60000, 96)]%Z.
Proof. vm_compute. reflexivity. Qed.
